(** * LinuxContainerBridge: path guard, lifecycle, command execution

    A shallow embedding of [src/main/claude/redaction.ts] (the
    [LinuxContainerBridge] class) together with the parts of the Node
    runtime it calls ([path.posix], [fs], [Buffer.toString], the child
    process event protocol).

    Conventions.
    - A JavaScript string is a Rocq [string] holding its UTF-8 encoding;
      a [Buffer] is a [string] of raw bytes.
    - A method that may throw returns a [result]; a method that touches the
      filesystem threads the filesystem state explicitly.
    - The bridge only ever holds a workspace on Linux, so [path] is
      [path.posix]. *)

From Stdlib Require Import ZArith Strings.String Strings.Ascii Numbers.DecimalString.
From stdpp Require Import base option list strings gmap.

Local Open Scope string_scope.
Local Open Scope list_scope.

(* stdpp keeps [simpl] from unfolding string append; the proofs below
   compute with it. *)
#[local] Arguments String.append !_ _ / : simpl nomatch.

(** ** Strings *)

Definition slash : ascii := "/"%char.

(** [s.startsWith(p)] *)
Definition startsWith (s p : string) : bool := String.prefix p s.

Definition isAbsolute (p : string) : bool :=
  match p with
  | String c _ => Ascii.eqb c slash
  | EmptyString => false
  end.

Fixpoint last_char (s : string) : option ascii :=
  match s with
  | EmptyString => None
  | String c EmptyString => Some c
  | String _ r => last_char r
  end.

Definition endsWithSlash (p : string) : bool :=
  match last_char p with
  | Some c => Ascii.eqb c slash
  | None => false
  end.

(** ** [path.posix] *)

Module path.

(** [s.split('/')]: never empty, [""] for the empty string. *)
Fixpoint split (s : string) : list string :=
  match s with
  | EmptyString => [EmptyString]
  | String c r =>
      if Ascii.eqb c slash then EmptyString :: split r
      else match split r with
           | h :: t => String c h :: t
           | [] => [String c EmptyString]
           end
  end.

(** [segs.join('/')] *)
Fixpoint join_segs (segs : list string) : string :=
  match segs with
  | [] => ""
  | [s] => s
  | s :: rest => s +:+ "/" +:+ join_segs rest
  end.

(** One separator-delimited segment of [normalizeString]; the stack holds
    the segments kept so far, innermost first. *)
Definition normalize_step (allowAboveRoot : bool) (stack : list string) (seg : string)
  : list string :=
  if String.eqb seg "" || String.eqb seg "." then stack
  else if String.eqb seg ".." then
    match stack with
    | top :: below =>
        if String.eqb top ".." then (if allowAboveRoot then seg :: stack else stack)
        else below
    | [] => if allowAboveRoot then [seg] else []
    end
  else seg :: stack.

Definition normalize_segs (allowAboveRoot : bool) (segs : list string) : list string :=
  rev (fold_left (normalize_step allowAboveRoot) segs []).

(** Node's internal [normalizeString(path, allowAboveRoot, '/', ...)]:
    drops empty and [.] segments, resolves [..] against the segment
    before it, and joins what is left with single separators. *)
Definition normalizeString (p : string) (allowAboveRoot : bool) : string :=
  join_segs (normalize_segs allowAboveRoot (split p)).

(** [path.resolve(p)] with one argument, in a process whose working
    directory is [cwd]. *)
Definition resolve (cwd p : string) : string :=
  let r1 := if String.eqb p "" then "" else p +:+ "/" in
  let '(r2, abs) :=
    if isAbsolute p then (r1, true)
    else if String.eqb cwd "" then (r1, false)
    else (cwd +:+ "/" +:+ r1, isAbsolute cwd) in
  let n := normalizeString r2 (negb abs) in
  if abs then "/" +:+ n
  else if String.eqb n "" then "." else n.

(** [path.normalize(p)] *)
Definition normalize (p : string) : string :=
  if String.eqb p "" then "."
  else
    let abs := isAbsolute p in
    let trailing := endsWithSlash p in
    let n := normalizeString p (negb abs) in
    if String.eqb n "" then
      (if abs then "/" else if trailing then "./" else ".")
    else
      let n' := if trailing then n +:+ "/" else n in
      if abs then "/" +:+ n' else n'.

(** [path.join(a, b)] *)
Definition join (a b : string) : string :=
  let joined :=
    if String.eqb a "" then b
    else if String.eqb b "" then a
    else a +:+ "/" +:+ b in
  if String.eqb joined "" then "." else normalize joined.

Fixpoint strip_common (from to : list string) : list string * list string :=
  match from, to with
  | f :: from', t :: to' =>
      if String.eqb f t then strip_common from' to' else (from, to)
  | _, _ => (from, to)
  end.

(** The kept segments of an absolute normalized path. *)
Definition segments (p : string) : list string := normalize_segs false (split p).

(** [path.relative(from, to)] *)
Definition relative (cwd from to : string) : string :=
  if String.eqb from to then ""
  else
    let from' := resolve cwd from in
    let to' := resolve cwd to in
    if String.eqb from' to' then ""
    else
      let '(up, down) := strip_common (segments from') (segments to') in
      join_segs (map (fun _ => "..") up ++ down).

Fixpoint drop_while (f : ascii -> bool) (l : list ascii) : list ascii :=
  match l with
  | c :: l' => if f c then drop_while f l' else l
  | [] => []
  end.

(** [path.dirname(p)]: scans indices [len-1 .. 1] from the right, skipping
    trailing separators, and cuts at the separator before the last
    component. *)
Definition dirname (p : string) : string :=
  match p with
  | EmptyString => "."
  | String c0 tail =>
      let hasRoot := Ascii.eqb c0 slash in
      let t := rev (list_ascii_of_string tail) in
      let t1 := drop_while (fun c => Ascii.eqb c slash) t in
      let t2 := drop_while (fun c => negb (Ascii.eqb c slash)) t1 in
      match t2 with
      | [] => if hasRoot then "/" else "."
      | _ :: t3 =>
          match t3 with
          | [] => if hasRoot then "//" else String c0 EmptyString
          | _ => String c0 (string_of_list_ascii (rev t3))
          end
      end
  end.

End path.

Definition nl : ascii := ascii_of_N 10.

Definition newline : string := String nl EmptyString.

(** ** [Buffer.prototype.toString()] (UTF-8) *)

(** U+FFFD, the replacement character, in UTF-8. *)
Definition replacement : string :=
  String (ascii_of_N 239) (String (ascii_of_N 191) (String (ascii_of_N 189) EmptyString)).

Inductive utf8_start :=
  | Single
  | Lead (need : nat) (lo hi : N)
  | Bad.

(** What a byte means at the start of a sequence: how many continuation
    bytes must follow and the range allowed for the first of them. *)
Definition utf8_lead (b : N) : utf8_start :=
  (if b <? 128 then Single
   else if (194 <=? b) && (b <=? 223) then Lead 1 128 191
   else if b =? 224 then Lead 2 160 191
   else if ((225 <=? b) && (b <=? 236)) || (b =? 238) || (b =? 239) then Lead 2 128 191
   else if b =? 237 then Lead 2 128 159
   else if b =? 240 then Lead 3 144 191
   else if (241 <=? b) && (b <=? 243) then Lead 3 128 191
   else if b =? 244 then Lead 3 128 143
   else Bad)%N.

(** Decoding keeps well-formed sequences and replaces every ill-formed or
    truncated one by U+FFFD, resuming at the offending byte. [pend] holds
    the bytes of the sequence being read, [need] how many are still due. *)
Fixpoint decode_utf8 (pend : string) (need : nat) (lo hi : N) (bs : string) : string :=
  match bs with
  | EmptyString => match need with O => "" | S _ => replacement end
  | String c rest =>
      let b := N_of_ascii c in
      let start :=
        match utf8_lead b with
        | Single => String c (decode_utf8 "" 0 0 0 rest)
        | Lead n l h => decode_utf8 (String c "") n l h rest
        | Bad => replacement +:+ decode_utf8 "" 0 0 0 rest
        end in
      match need with
      | O => start
      | S need' =>
          if ((lo <=? b) && (b <=? hi))%N then
            match need' with
            | O => pend +:+ String c (decode_utf8 "" 0 0 0 rest)
            | S _ => decode_utf8 (pend +:+ String c "") need' 128 191 rest
            end
          else replacement +:+ start
      end
  end.

(** [data.toString()] for a [Buffer] [data]. *)
Definition toString (data : string) : string := decode_utf8 "" 0 0 0 data.

(** ** [String.prototype.trim()] *)

(** ECMAScript WhiteSpace and LineTerminator code points, by the bytes of
    their UTF-8 encodings: U+0009..U+000D, U+0020; U+00A0; U+1680,
    U+2000..U+200A, U+2028, U+2029, U+202F, U+205F, U+3000, U+FEFF. *)
Definition ws1 (a : N) : bool := ((9 <=? a) && (a <=? 13) || (a =? 32))%N.
Definition ws2 (a b : N) : bool := ((a =? 194) && (b =? 160))%N.
Definition ws3 (a b c : N) : bool :=
  ((a =? 225) && (b =? 154) && (c =? 128)
   || (a =? 226) && (b =? 128)
      && ((128 <=? c) && (c <=? 138) || (c =? 168) || (c =? 169) || (c =? 175))
   || (a =? 226) && (b =? 129) && (c =? 159)
   || (a =? 227) && (b =? 128) && (c =? 128)
   || (a =? 239) && (b =? 187) && (c =? 191))%N.

Fixpoint trimStart (s : string) : string :=
  match s with
  | EmptyString => ""
  | String c1 r1 =>
      if ws1 (N_of_ascii c1) then trimStart r1
      else match r1 with
           | EmptyString => s
           | String c2 r2 =>
               if ws2 (N_of_ascii c1) (N_of_ascii c2) then trimStart r2
               else match r2 with
                    | EmptyString => s
                    | String c3 r3 =>
                        if ws3 (N_of_ascii c1) (N_of_ascii c2) (N_of_ascii c3)
                        then trimStart r3 else s
                    end
           end
  end.

(** The same scan from the right, on the reversed string. *)
Fixpoint trimStart_rev (s : string) : string :=
  match s with
  | EmptyString => ""
  | String c1 r1 =>
      if ws1 (N_of_ascii c1) then trimStart_rev r1
      else match r1 with
           | EmptyString => s
           | String c2 r2 =>
               if ws2 (N_of_ascii c2) (N_of_ascii c1) then trimStart_rev r2
               else match r2 with
                    | EmptyString => s
                    | String c3 r3 =>
                        if ws3 (N_of_ascii c3) (N_of_ascii c2) (N_of_ascii c1)
                        then trimStart_rev r3 else s
                    end
           end
  end.

Definition trimEnd (s : string) : string := String.rev (trimStart_rev (String.rev s)).

Definition trim (s : string) : string := trimEnd (trimStart s).

(** ** The environment-name pattern [/^[A-Za-z_][A-Za-z0-9_]*$/] *)

Definition is_name_start (c : ascii) : bool :=
  let n := N_of_ascii c in
  ((65 <=? n) && (n <=? 90) || (97 <=? n) && (n <=? 122) || (n =? 95))%N.

Definition is_name_char (c : ascii) : bool :=
  let n := N_of_ascii c in
  is_name_start c || ((48 <=? n) && (n <=? 57))%N.

Definition safe_env_name (key : string) : bool :=
  match key with
  | EmptyString => false
  | String c rest => is_name_start c && forallb is_name_char (list_ascii_of_string rest)
  end.

(** ** Printing a number in a template literal

    [Number::toString] on an integral value.  A JavaScript number is a
    double: [to_double] is the nearest one (ties to even), [shortest] the
    decimal with the fewest significant digits that still reads back as
    that double (the nearest such, the even one on a tie).  It is printed
    in full below [1e21] and in exponent form from there on; below [2^53]
    every integer is a double and prints as itself. *)

Definition decimal (a : Z) : string := NilZero.string_of_int (Z.to_int a).

Definition to_double (a : Z) : Z :=
  if (a <? 2 ^ 53)%Z then a
  else
    let e := (Z.log2 a - 52)%Z in
    let m := Z.shiftr a e in
    let rest := (a - Z.shiftl m e)%Z in
    let half := Z.shiftl 1 (e - 1) in
    let up := ((half <? rest) || ((rest =? half) && Z.odd m))%Z in
    Z.shiftl (if up then m + 1 else m)%Z e.

Definition candidate (x digits k : Z) : option Z :=
  let scale := (10 ^ (digits - k))%Z in
  let lo := (x / scale)%Z in
  let below := (lo * scale)%Z in
  let above := ((lo + 1) * scale)%Z in
  match (to_double below =? x)%Z, (to_double above =? x)%Z with
  | true, true =>
      if (x - below <? above - x)%Z then Some below
      else if (above - x <? x - below)%Z then Some above
      else if Z.even lo then Some below else Some above
  | true, false => Some below
  | false, true => Some above
  | false, false => None
  end.

Fixpoint shortest (x digits : Z) (ks : list Z) : Z :=
  match ks with
  | [] => x
  | k :: ks' =>
      match candidate x digits k with
      | Some v => v
      | None => shortest x digits ks'
      end
  end.

Fixpoint drop_zeros (s : string) : string :=
  match s with
  | String "0" r => drop_zeros r
  | _ => s
  end.

Definition strip_zeros (s : string) : string := String.rev (drop_zeros (String.rev s)).

Definition exponent_form (s : string) : string :=
  match strip_zeros s with
  | String d "" => String d "" +:+ "e+" +:+ decimal (Z.of_nat (String.length s) - 1)
  | String d ds => String d ("." +:+ ds) +:+ "e+" +:+ decimal (Z.of_nat (String.length s) - 1)
  | "" => s
  end.

Definition positive_to_string (a : Z) : string :=
  if (a <? 2 ^ 53)%Z then decimal a
  else
    let x := to_double a in
    if (2 ^ 1024 <=? x)%Z then "Infinity"
    else
      let s := decimal (shortest x (Z.of_nat (String.length (decimal x))) (seqZ 1 17)) in
      if (String.length s <=? 21)%nat then s else exponent_form s.

Definition number_to_string (z : Z) : string :=
  if (z <? 0)%Z then "-" +:+ positive_to_string (- z) else positive_to_string z.

(** ** Thrown errors *)

Inductive ContainerRuntime := podman | docker.

Definition runtime_name (r : ContainerRuntime) : string :=
  match r with podman => "podman" | docker => "docker" end.

(** One constructor per [throw] site of the class; [FsError] stands for an
    exception raised by an [fs] call. *)
Inductive Error :=
  | OnlyLinux
  | WorkspaceMissing (workspace : string)
  | NoRuntime
  | NotRootless (runtime : ContainerRuntime)
  | ImageFailed (image : string)
  | BridgeNotInitialized
  | OutsideWorkspace (resolved : string)
  | SymlinkEscape (resolved realPath : string)
  | RuntimeNotInitialized
  | ContainerBridgeNotInitialized
  | FsError (call target : string).

Definition message (e : Error) : string :=
  match e with
  | OnlyLinux => "LinuxContainerBridge is only available on Linux"
  | WorkspaceMissing w => "Workspace does not exist: " +:+ w
  | NoRuntime =>
      "No supported container runtime detected. Install Podman rootless or Docker rootless."
  | NotRootless r =>
      runtime_name r +:+ " is available but not running rootless. Configure rootless mode first."
  | ImageFailed i => "Failed to prepare sandbox image: " +:+ i
  | BridgeNotInitialized => "Bridge not initialized"
  | OutsideWorkspace r => "Path is outside workspace: " +:+ r
  | SymlinkEscape r t => "Symlink escape detected: " +:+ r +:+ " -> " +:+ t
  | RuntimeNotInitialized => "Container runtime not initialized"
  | ContainerBridgeNotInitialized => "Linux container bridge not initialized"
  | FsError call target => call +:+ " failed: " +:+ target
  end.

Inductive result (A : Type) :=
  | Ok (a : A)
  | Err (e : Error).
Arguments Ok {A} a.
Arguments Err {A} e.

#[global] Instance result_ret : MRet result := @Ok.

#[global] Instance result_bind : MBind result := fun A B k r =>
  match r with
  | Ok a => k a
  | Err e => Err e
  end.

Definition is_ok {A : Type} (r : result A) : bool :=
  match r with Ok _ => true | Err _ => false end.

(** ** Data model *)

(** A [Record<string, string>] as its [Object.entries], in insertion order.
    (Integer-like keys, which JavaScript lists first, never match the
    environment-name pattern, so their position does not show in what is
    forwarded.) *)
Definition Env := list (string * string).

Fixpoint obj_set (k v : string) (o : Env) : Env :=
  match o with
  | [] => [(k, v)]
  | (k', v') :: o' => if String.eqb k' k then (k', v) :: o' else (k', v') :: obj_set k v o'
  end.

(** [o[k]] for the object written as the entry list [o]: as in an object
    literal, a later entry for the same key overrides an earlier one. *)
Fixpoint obj_get (k : string) (o : Env) : option string :=
  match o with
  | [] => None
  | (k', v) :: o' =>
      match obj_get k o' with
      | Some v' => Some v'
      | None => if String.eqb k' k then Some v else None
      end
  end.

(** [{...target, ...source}] *)
Definition spread (target source : Env) : Env :=
  fold_left (fun o kv => obj_set (fst kv) (snd kv) o) source target.

(** Modelled from the spec: [SandboxConfig] is declared in [./types], which
    is not among the sources. The spec gives it a workspace root path, a
    default timeout in milliseconds and a default environment overlay; the
    bridge reads [timeout] and [env] as optional. *)
Record SandboxConfig := {
  cfg_workspacePath : string;
  cfg_timeout : option Z;
  cfg_env : option Env;
}.

(** Modelled from the spec: [ExecutionResult] is declared in [./types]; the
    spec gives its shape as
    [{ success: bool, stdout: string, stderr: string, exitCode: int|null }]. *)
Record ExecutionResult := {
  success : bool;
  stdout : string;
  stderr : string;
  exitCode : option Z;
}.

(** Modelled from the spec: [DirectoryEntry] is declared in [./types]; a
    name, an is-directory flag and a size present only for files. *)
Record DirectoryEntry := {
  entry_name : string;
  entry_isDirectory : bool;
  entry_size : option Z;
}.

(** Modelled from the spec: [LinuxContainerStatus] is declared in [./types];
    these are the fields [initialize] reads, optional when the status is
    built without them. *)
Record LinuxContainerStatus := {
  available : bool;
  status_runtime : option ContainerRuntime;
  status_rootless : option bool;
  status_version : option string;
  status_image : option string;
  status_imageAvailable : option bool;
}.

(** ** The host process *)

(** What the bridge reads from [process] and learns from the probe
    commands it runs ([which], [podman info], [docker info], [image exists],
    [pull]). *)
Record Host := {
  platform : string;
  cwd : string;
  env_sandbox_image : option string;
  getuid : option Z;
  getgid : option Z;
  commandExists : string -> bool;
  getBinaryVersion : string -> option string;
  detectRootless : ContainerRuntime -> bool;
  checkImageAvailable : ContainerRuntime -> string -> bool;
  pull : ContainerRuntime -> string -> bool;
}.

(** [a || b] on strings *)
Definition or_string (a : option string) (b : string) : string :=
  match a with
  | Some s => if String.eqb s "" then b else s
  | None => b
  end.

Definition DEFAULT_CONTAINER_IMAGE (h : Host) : string :=
  or_string (env_sandbox_image h) "docker.io/library/node:20-bookworm-slim".

Definition detectRuntime (h : Host) : option (ContainerRuntime * option string) :=
  if commandExists h "podman" then Some (podman, getBinaryVersion h "podman")
  else if commandExists h "docker" then Some (docker, getBinaryVersion h "docker")
  else None.

Definition checkLinuxContainerStatus (h : Host) : LinuxContainerStatus :=
  if negb (String.eqb (platform h) "linux") then
    {| available := false; status_runtime := None; status_rootless := None;
       status_version := None; status_image := None; status_imageAvailable := None |}
  else
    match detectRuntime h with
    | None =>
        {| available := false; status_runtime := None; status_rootless := None;
           status_version := None; status_image := None; status_imageAvailable := None |}
    | Some (rt, version) =>
        let rootless := detectRootless h rt in
        let image := DEFAULT_CONTAINER_IMAGE h in
        {| available := rootless; status_runtime := Some rt; status_rootless := Some rootless;
           status_version := version; status_image := Some image;
           status_imageAvailable := Some (checkImageAvailable h rt image) |}
    end.

Definition ensureImage (h : Host) (rt : ContainerRuntime) (image : string) : bool :=
  if checkImageAvailable h rt image then true else pull h rt image.

(** ** The filesystem *)

Record Dirent := {
  dirent_name : string;
  dirent_isDirectory : bool;
  dirent_isFile : bool;
}.

(** The [fs] calls of the bridge over a filesystem state [S]. [None] is a
    thrown exception, which leaves the state as it was. *)
Class HostFs (S : Type) := {
  existsSync : string -> S -> bool;
  realpathSync : string -> S -> option string;
  readFileSync : string -> S -> option string;
  writeFileSync : string -> string -> S -> option S;
  mkdirSync : string -> S -> option S;
  readdirSync : string -> S -> option (list Dirent);
  statSync_size : string -> S -> option Z;
  unlinkSync : string -> S -> option S;
  copyFileSync : string -> string -> S -> option S;
}.

(** The one law the bridge relies on: a name that was unlinked is no longer
    there. *)
Class HostFsLaws (S : Type) `{HostFs S} : Prop := {
  unlink_gone : forall p s s', unlinkSync p s = Some s' -> existsSync p s' = false;
}.

(** ** The bridge *)

Record Bridge := {
  config : option SandboxConfig;
  workspacePath : string;
  initialized : bool;
  runtime : option ContainerRuntime;
  image : string;
}.

Definition containerWorkspacePath : string := "/workspace".

(** A freshly constructed instance. *)
Definition new_bridge (h : Host) : Bridge :=
  {| config := None; workspacePath := ""; initialized := false; runtime := None;
     image := DEFAULT_CONTAINER_IMAGE h |}.

(** The closure state of the promise in [executeCommand]. [timer] tells
    whether the timeout is still armed, [killed] lists the signals sent to
    the child, [resolved] is the value the promise was resolved with. *)
Record Run := {
  run_stdout : string;
  run_stderr : string;
  timedOut : bool;
  timer : bool;
  killed : list string;
  resolved : option ExecutionResult;
}.

(** What the event loop delivers to the handlers registered on the child. *)
Inductive ChildEvent :=
  | StdoutData (data : string)
  | StderrData (data : string)
  | TimerFired
  | ChildError (msg : string)
  | Close (code : option Z).

Record Spawn := {
  spawn_file : string;
  spawn_args : list string;
  spawn_timeoutMs : Z;
}.

Definition spawned : Run :=
  {| run_stdout := ""; run_stderr := ""; timedOut := false; timer := true;
     killed := []; resolved := None |}.

(** [clearTimeout(timer); resolve(r)]: only the first resolution counts. *)
Definition settle (st : Run) (r : ExecutionResult) : Run :=
  {| run_stdout := run_stdout st; run_stderr := run_stderr st; timedOut := timedOut st;
     timer := false; killed := killed st;
     resolved := match resolved st with Some r0 => Some r0 | None => Some r end |}.

Definition timeout_notice (timeoutMs : Z) : string :=
  "Command timed out after " +:+ number_to_string timeoutMs +:+ "ms".

Definition handle (timeoutMs : Z) (st : Run) (ev : ChildEvent) : Run :=
  match ev with
  | StdoutData data =>
      {| run_stdout := run_stdout st +:+ toString data; run_stderr := run_stderr st;
         timedOut := timedOut st; timer := timer st; killed := killed st;
         resolved := resolved st |}
  | StderrData data =>
      {| run_stdout := run_stdout st; run_stderr := run_stderr st +:+ toString data;
         timedOut := timedOut st; timer := timer st; killed := killed st;
         resolved := resolved st |}
  | TimerFired =>
      if timer st then
        {| run_stdout := run_stdout st; run_stderr := run_stderr st;
           timedOut := true; timer := false; killed := killed st ++ ["SIGKILL"];
           resolved := resolved st |}
      else st
  | ChildError msg =>
      settle st {| success := false; stdout := run_stdout st;
                   stderr := trim (run_stderr st +:+ newline +:+ msg);
                   exitCode := Some 1%Z |}
  | Close code =>
      if timedOut st then
        settle st {| success := false; stdout := run_stdout st;
                     stderr := trim (run_stderr st +:+ newline +:+ timeout_notice timeoutMs);
                     exitCode := Some 124%Z |}
      else
        settle st {| success := match code with Some 0%Z => true | _ => false end;
                     stdout := run_stdout st;
                     stderr := run_stderr st;
                     exitCode := Some (default 1%Z code) |}
  end.

Definition run_child (timeoutMs : Z) (events : list ChildEvent) : Run :=
  fold_left (handle timeoutMs) events spawned.

Section bridge.
Context {S : Type} `{HostFs S}.
Variable h : Host.

Definition initialize (br : Bridge) (cfg : SandboxConfig) (fs : S) : result unit * Bridge :=
  if negb (String.eqb (platform h) "linux") then (Err OnlyLinux, br)
  else
    let ws := path.resolve (cwd h) (cfg_workspacePath cfg) in
    let br1 := {| config := Some cfg; workspacePath := ws; initialized := initialized br;
                  runtime := runtime br; image := image br |} in
    if negb (existsSync ws fs) then (Err (WorkspaceMissing ws), br1)
    else
      let status := checkLinuxContainerStatus h in
      match status_runtime status with
      | None => (Err NoRuntime, br1)
      | Some rt =>
          if negb (default false (status_rootless status)) then (Err (NotRootless rt), br1)
          else
            let img := or_string (status_image status) (DEFAULT_CONTAINER_IMAGE h) in
            let br2 := {| config := Some cfg; workspacePath := ws;
                          initialized := initialized br;
                          runtime := Some rt; image := img |} in
            if negb (ensureImage h rt img) then (Err (ImageFailed img), br2)
            else (Ok tt, {| config := Some cfg; workspacePath := ws; initialized := true;
                            runtime := Some rt; image := img |})
      end.

Definition validatePath (br : Bridge) (targetPath : string) (fs : S) : result string :=
  if String.eqb (workspacePath br) "" then Err BridgeNotInitialized
  else
    let resolved := path.resolve (cwd h) targetPath in
    let normalizedWorkspace := path.normalize (workspacePath br) in
    let normalizedTarget := path.normalize resolved in
    if negb (startsWith normalizedTarget normalizedWorkspace) then
      Err (OutsideWorkspace resolved)
    else if existsSync resolved fs then
      match realpathSync resolved fs with
      | None => Err (FsError "realpath" resolved)
      | Some realPath =>
          if negb (startsWith realPath normalizedWorkspace) then
            Err (SymlinkEscape resolved realPath)
          else Ok resolved
      end
    else Ok resolved.

Definition toContainerPath (br : Bridge) (hostPath : string) : string :=
  let rel := path.relative (cwd h) (workspacePath br) hostPath in
  if String.eqb rel "" || String.eqb rel "." then containerWorkspacePath
  else path.join containerWorkspacePath (path.join_segs (path.split rel)).

Definition mergedEnv (br : Bridge) (env : option Env) : Env :=
  let defaults := default [] (config br ≫= cfg_env) in
  obj_set "WORKSPACE" containerWorkspacePath (spread (spread [] defaults) (default [] env)).

Definition env_args (merged : Env) : list string :=
  flat_map (fun kv => if safe_env_name (fst kv)
                      then ["--env"; fst kv +:+ "=" +:+ snd kv] else []) merged.

Definition user_args (rt : ContainerRuntime) : list string :=
  match rt with
  | podman => ["--userns"; "keep-id"]
  | docker =>
      match getuid h, getgid h with
      | Some uid, Some gid => ["--user"; number_to_string uid +:+ ":" +:+ number_to_string gid]
      | _, _ => []
      end
  end.

Definition isolation_args (br : Bridge) (cwd : string) : list string :=
  ["run"; "--rm"; "--network"; "none"; "--cap-drop"; "ALL";
   "--security-opt"; "no-new-privileges"; "--pids-limit"; "512";
   "--workdir"; cwd;
   "--volume"; workspacePath br +:+ ":" +:+ containerWorkspacePath +:+ ":rw"].

Definition buildRuntimeArgs (br : Bridge) (command cwd : string) (env : option Env)
  : result (list string) :=
  match runtime br with
  | None => Err RuntimeNotInitialized
  | Some rt =>
      Ok (isolation_args br cwd ++ user_args rt ++ env_args (mergedEnv br env)
          ++ [image br; "/bin/bash"; "-lc"; command])
  end.

(** [this.config?.timeout || 60000] *)
Definition timeoutMs (br : Bridge) : Z :=
  match config br ≫= cfg_timeout with
  | Some t => if Z.eqb t 0 then 60000%Z else t
  | None => 60000%Z
  end.

(** The synchronous part of [executeCommand], up to the [spawn] call. *)
Definition executeCommand_spawn (br : Bridge) (command : string) (cwd : option string)
    (env : option Env) (fs : S) : result Spawn :=
  match initialized br, runtime br with
  | true, Some rt =>
      hostCwd ← match cwd with
                | Some c => if String.eqb c "" then Ok (workspacePath br)
                            else validatePath br c fs
                | None => Ok (workspacePath br)
                end;
      runtimeArgs ← buildRuntimeArgs br command (toContainerPath br hostCwd) env;
      Ok {| spawn_file := runtime_name rt; spawn_args := runtimeArgs;
            spawn_timeoutMs := timeoutMs br |}
  | _, _ => Err ContainerBridgeNotInitialized
  end.

(** [executeCommand] against a child that delivers [events]: throws, or
    leaves the promise in the state reached after the last event. *)
Definition executeCommand (br : Bridge) (command : string) (cwd : option string)
    (env : option Env) (fs : S) (events : list ChildEvent) : result Run :=
  sp ← executeCommand_spawn br command cwd env fs;
  Ok (run_child (spawn_timeoutMs sp) events).

Definition readFile (br : Bridge) (filePath : string) (fs : S) : result string :=
  validPath ← validatePath br filePath fs;
  match readFileSync validPath fs with
  | Some content => Ok content
  | None => Err (FsError "readFile" validPath)
  end.

Definition writeFile (br : Bridge) (filePath content : string) (fs : S) : result unit * S :=
  match validatePath br filePath fs with
  | Err e => (Err e, fs)
  | Ok validPath =>
      match mkdirSync (path.dirname validPath) fs with
      | None => (Err (FsError "mkdir" (path.dirname validPath)), fs)
      | Some fs1 =>
          match writeFileSync validPath content fs1 with
          | None => (Err (FsError "writeFile" validPath), fs1)
          | Some fs2 => (Ok tt, fs2)
          end
      end
  end.

Fixpoint list_entries (validPath : string) (entries : list Dirent) (fs : S)
  : result (list DirectoryEntry) :=
  match entries with
  | [] => Ok []
  | e :: rest =>
      size ← (if dirent_isFile e then
                match statSync_size (path.join validPath (dirent_name e)) fs with
                | Some n => Ok (Some n)
                | None => Err (FsError "stat" (path.join validPath (dirent_name e)))
                end
              else Ok None);
      tail ← list_entries validPath rest fs;
      Ok ({| entry_name := dirent_name e; entry_isDirectory := dirent_isDirectory e;
             entry_size := size |} :: tail)
  end.

Definition listDirectory (br : Bridge) (dirPath : string) (fs : S)
  : result (list DirectoryEntry) :=
  validPath ← validatePath br dirPath fs;
  match readdirSync validPath fs with
  | Some entries => list_entries validPath entries fs
  | None => Err (FsError "readdir" validPath)
  end.

Definition fileExists (br : Bridge) (filePath : string) (fs : S) : result bool :=
  match validatePath br filePath fs with
  | Ok validPath => Ok (existsSync validPath fs)
  | Err _ => Ok false
  end.

Definition deleteFile (br : Bridge) (filePath : string) (fs : S) : result unit * S :=
  match validatePath br filePath fs with
  | Err e => (Err e, fs)
  | Ok validPath =>
      if existsSync validPath fs then
        match unlinkSync validPath fs with
        | Some fs' => (Ok tt, fs')
        | None => (Err (FsError "unlink" validPath), fs)
        end
      else (Ok tt, fs)
  end.

Definition createDirectory (br : Bridge) (dirPath : string) (fs : S) : result unit * S :=
  match validatePath br dirPath fs with
  | Err e => (Err e, fs)
  | Ok validPath =>
      match mkdirSync validPath fs with
      | Some fs' => (Ok tt, fs')
      | None => (Err (FsError "mkdir" validPath), fs)
      end
  end.

Definition copyFile (br : Bridge) (src dest : string) (fs : S) : result unit * S :=
  match validatePath br src fs with
  | Err e => (Err e, fs)
  | Ok validSrc =>
      match validatePath br dest fs with
      | Err e => (Err e, fs)
      | Ok validDest =>
          match mkdirSync (path.dirname validDest) fs with
          | None => (Err (FsError "mkdir" (path.dirname validDest)), fs)
          | Some fs1 =>
              match copyFileSync validSrc validDest fs1 with
              | Some fs2 => (Ok tt, fs2)
              | None => (Err (FsError "copyFile" validSrc), fs1)
              end
          end
      end
  end.

Definition shutdown (br : Bridge) : Bridge :=
  {| config := None; workspacePath := workspacePath br; initialized := false;
     runtime := None; image := image br |}.

End bridge.

(** ** An in-memory filesystem with symbolic links

    The instance of [HostFs] used to run the bridge on concrete trees. A
    tree maps the real location of every entry, as the list of its path
    segments, to a node; the root directory is implicit. *)

Module memfs.

Inductive Node :=
  | File (content : string)
  | Dir
  | Link (target : string).

Abbreviation Tree := (gmap (list string) Node).

Definition node_at (t : Tree) (key : list string) : option Node :=
  match key with
  | [] => Some Dir
  | _ => t !! key
  end.

(** How the last component is treated: [Follow] as [stat] does, [NoFollow]
    as [lstat] and [unlink] do, [Create] as a write that may create it. *)
Inductive Mode := Follow | NoFollow | Create.

Definition is_nil {A : Type} (l : list A) : bool :=
  match l with [] => true | _ => false end.

(** Pathname resolution from the directory [cur] along the segments
    [rest], one step per unit of [fuel]; running out of fuel is [ELOOP]. *)
Fixpoint walk (fuel : nat) (mode : Mode) (t : Tree) (cur rest : list string)
  : option (list string) :=
  match rest with
  | [] => Some cur
  | seg :: rest' =>
      match fuel with
      | O => None
      | Datatypes.S fuel' =>
          if String.eqb seg "" || String.eqb seg "." then walk fuel' mode t cur rest'
          else if String.eqb seg ".." then walk fuel' mode t (removelast cur) rest'
          else
            let key := cur ++ [seg] in
            match t !! key with
            | None =>
                match mode with
                | Create => if is_nil rest' then Some key else None
                | _ => None
                end
            | Some Dir => walk fuel' mode t key rest'
            | Some (File _) => if is_nil rest' then Some key else None
            | Some (Link target) =>
                match mode with
                | NoFollow =>
                    if is_nil rest' then Some key
                    else walk fuel' mode t (if isAbsolute target then [] else cur)
                           (path.split target ++ rest')
                | _ => walk fuel' mode t (if isAbsolute target then [] else cur)
                         (path.split target ++ rest')
                end
            end
      end
  end.

Definition fuel : nat := 256.

Definition locate (mode : Mode) (p : string) (t : Tree) : option (list string) :=
  walk fuel mode t [] (path.split p).

Definition render (key : list string) : string := "/" +:+ path.join_segs key.

Definition exists_ (p : string) (t : Tree) : bool :=
  match locate Follow p t with Some _ => true | None => false end.

Definition realpath (p : string) (t : Tree) : option string :=
  render <$> locate Follow p t.

Definition readFile (p : string) (t : Tree) : option string :=
  key ← locate Follow p t;
  match node_at t key with
  | Some (File content) => Some content
  | _ => None
  end.

Definition writeFile (p content : string) (t : Tree) : option Tree :=
  key ← locate Create p t;
  match node_at t key with
  | Some (File _) | None => Some (<[key := File content]> t)
  | _ => None
  end.

(** [mkdir -p]: existing directories are entered, missing ones created. *)
Fixpoint mkdirp (fuel : nat) (t : Tree) (cur rest : list string) : option Tree :=
  match rest with
  | [] => Some t
  | seg :: rest' =>
      match fuel with
      | O => None
      | Datatypes.S fuel' =>
          if String.eqb seg "" || String.eqb seg "." then mkdirp fuel' t cur rest'
          else if String.eqb seg ".." then mkdirp fuel' t (removelast cur) rest'
          else
            let key := cur ++ [seg] in
            match t !! key with
            | None => mkdirp fuel' (<[key := Dir]> t) key rest'
            | Some Dir => mkdirp fuel' t key rest'
            | Some (File _) => None
            | Some (Link target) =>
                match walk fuel' Follow t (if isAbsolute target then [] else cur)
                        (path.split target) with
                | Some real =>
                    match node_at t real with
                    | Some Dir => mkdirp fuel' t real rest'
                    | _ => None
                    end
                | None => None
                end
            end
      end
  end.

Definition mkdir (p : string) (t : Tree) : option Tree :=
  mkdirp fuel t [] (path.split p).

Definition dirent_of (name : string) (n : Node) : Dirent :=
  {| dirent_name := name;
     dirent_isDirectory := match n with Dir => true | _ => false end;
     dirent_isFile := match n with File _ => true | _ => false end |}.

Definition child_of (dir : list string) (kn : list string * Node) : option Dirent :=
  match last (fst kn) with
  | Some name => if decide (fst kn = dir ++ [name]) then Some (dirent_of name (snd kn)) else None
  | None => None
  end.

Definition readdir (p : string) (t : Tree) : option (list Dirent) :=
  key ← locate Follow p t;
  match node_at t key with
  | Some Dir => Some (omap (child_of key) (map_to_list t))
  | _ => None
  end.

Definition stat_size (p : string) (t : Tree) : option Z :=
  key ← locate Follow p t;
  match node_at t key with
  | Some (File content) => Some (Z.of_nat (String.length content))
  | Some _ => Some 4096%Z
  | None => None
  end.

Definition unlink (p : string) (t : Tree) : option Tree :=
  key ← locate NoFollow p t;
  match node_at t key with
  | Some (File _) | Some (Link _) => Some (delete key t)
  | _ => None
  end.

Definition copyFile (src dest : string) (t : Tree) : option Tree :=
  content ← readFile src t;
  writeFile dest content t.


(** Builds a tree from a list of locations. *)
Definition tree (entries : list (string * Node)) : Tree :=
  list_to_map (map (fun e => (path.segments (fst e), snd e)) entries).

End memfs.

#[global] Instance memfs_fs : HostFs memfs.Tree := {
  existsSync := memfs.exists_;
  realpathSync := memfs.realpath;
  readFileSync := memfs.readFile;
  writeFileSync := memfs.writeFile;
  mkdirSync := memfs.mkdir;
  readdirSync := memfs.readdir;
  statSync_size := memfs.stat_size;
  unlinkSync := memfs.unlink;
  copyFileSync := memfs.copyFile;
}.

(** ** Sample hosts and trees *)

Module sample.

(** A Linux host with rootless podman and the image present, running in
    [dir]. *)
Definition host (dir : string) : Host :=
  {| platform := "linux"; cwd := dir; env_sandbox_image := None;
     getuid := Some 1000%Z; getgid := Some 1000%Z;
     commandExists := fun c => String.eqb c "podman";
     getBinaryVersion := fun _ => Some "podman version 4.9.3";
     detectRootless := fun _ => true;
     checkImageAvailable := fun _ _ => true;
     pull := fun _ _ => true |}.

(** The same host without any container runtime. *)
Definition bare_host (dir : string) : Host :=
  {| platform := "linux"; cwd := dir; env_sandbox_image := None;
     getuid := Some 1000%Z; getgid := Some 1000%Z;
     commandExists := fun _ => false;
     getBinaryVersion := fun _ => None;
     detectRootless := fun _ => false;
     checkImageAvailable := fun _ _ => false;
     pull := fun _ _ => false |}.

Definition cfg (ws : string) : SandboxConfig :=
  {| cfg_workspacePath := ws; cfg_timeout := Some 1000%Z;
     cfg_env := Some [("LANG", "C"); ("MODE", "default")] |}.

(** A ready bridge on [/home/u/ws]. *)
Definition ready : Bridge :=
  {| config := Some (cfg "/home/u/ws"); workspacePath := "/home/u/ws"; initialized := true;
     runtime := Some podman; image := "docker.io/library/node:20-bookworm-slim" |}.

(** A workspace holding a file, a link to a directory outside it and a
    dangling link; next to it a directory whose name extends the
    workspace's. *)
Definition disk : memfs.Tree :=
  memfs.tree [("/home", memfs.Dir); ("/home/u", memfs.Dir); ("/home/u/ws", memfs.Dir);
              ("/home/u/ws/a.txt", memfs.File "hello");
              ("/home/u/ws/out", memfs.Link "/etc");
              ("/home/u/ws/dangling", memfs.Link "../nothing");
              ("/home/u/ws-private", memfs.Dir);
              ("/home/u/ws-private/key", memfs.File "secret");
              ("/etc", memfs.Dir); ("/etc/passwd", memfs.File "root");
              ("/app", memfs.Dir)].

(** A workspace reached through a symbolic link. *)
Definition linked_disk : memfs.Tree :=
  memfs.tree [("/home", memfs.Dir); ("/home/u", memfs.Dir);
              ("/home/u/ws", memfs.Link "/data/ws");
              ("/data", memfs.Dir); ("/data/ws", memfs.Dir);
              ("/data/ws/a.txt", memfs.File "hello")].

End sample.

(** A Linux host on which podman is installed but runs as root, next to a
    rootless docker. *)
Definition rootful_podman_host (dir : string) : Host :=
  {| platform := "linux"; cwd := dir; env_sandbox_image := None;
     getuid := Some 1000%Z; getgid := Some 1000%Z;
     commandExists := fun c => String.eqb c "podman" || String.eqb c "docker";
     getBinaryVersion := fun _ => None;
     detectRootless := fun rt => match rt with podman => false | docker => true end;
     checkImageAvailable := fun _ _ => true;
     pull := fun _ _ => true |}.

(** ** Vocabulary of the statements *)

(** The events that resolve the promise. *)
Definition is_settling (ev : ChildEvent) : bool :=
  match ev with
  | ChildError _ | Close _ => true
  | _ => false
  end.

Definition is_timer (ev : ChildEvent) : bool :=
  match ev with
  | TimerFired => true
  | _ => false
  end.

(** The buffers the child wrote to each stream, in order of arrival. *)
Fixpoint stdout_chunks (events : list ChildEvent) : list string :=
  match events with
  | [] => []
  | StdoutData d :: rest => d :: stdout_chunks rest
  | _ :: rest => stdout_chunks rest
  end.

Fixpoint stderr_chunks (events : list ChildEvent) : list string :=
  match events with
  | [] => []
  | StderrData d :: rest => d :: stderr_chunks rest
  | _ :: rest => stderr_chunks rest
  end.

Fixpoint join_all (l : list string) : string :=
  match l with
  | [] => ""
  | s :: rest => s +:+ join_all rest
  end.

(** No settling event among [events]. *)
Definition unsettled (events : list ChildEvent) : bool :=
  forallb (fun ev => negb (is_settling ev)) events.

(** The value the promise takes at the first settling event. *)
Definition settled_with (t : Z) (pre : list ChildEvent) (ev : ChildEvent) : ExecutionResult :=
  let out := join_all (map toString (stdout_chunks pre)) in
  let err := join_all (map toString (stderr_chunks pre)) in
  match ev with
  | ChildError msg =>
      {| success := false; stdout := out; stderr := trim (err +:+ newline +:+ msg); exitCode := Some 1%Z |}
  | Close code =>
      if existsb is_timer pre then
        {| success := false; stdout := out;
           stderr := trim (err +:+ newline +:+ timeout_notice t); exitCode := Some 124%Z |}
      else
        {| success := match code with Some 0%Z => true | _ => false end;
           stdout := out; stderr := err; exitCode := Some (default 1%Z code) |}
  | _ => {| success := false; stdout := out; stderr := err; exitCode := None |}
  end.

(** A buffer that is well-formed UTF-8 text decodes to itself. *)
Definition utf8_text (data : string) : Prop := toString data = data.

Fixpoint has_slash (s : string) : bool :=
  match s with
  | EmptyString => false
  | String c r => Ascii.eqb c slash || has_slash r
  end.

(** A path segment that names an entry: not empty, not [.] or [..], and
    free of separators. *)
Definition clean (seg : string) : Prop :=
  seg <> "" /\ seg <> "." /\ seg <> ".." /\ has_slash seg = false.

(** An absolute path in normal form: [/] followed by clean segments
    separated by single slashes. *)
Definition canonical (p : string) : Prop :=
  exists segs, Forall clean segs /\ p = "/" +:+ path.join_segs segs.

(** The prefix every path strictly below the directory [root] starts with. *)
Definition dir_prefix (root : string) : string :=
  if endsWithSlash root then root else root +:+ "/".

(** "Inside the workspace root" in the spec's words: [p] is the directory
    [root] or lies below it. *)
Definition within (root p : string) : Prop :=
  p = root \/ startsWith p (dir_prefix root) = true.

(** The first entry for [k], which is what [obj_set] updates. *)
Fixpoint first_get (k : string) (o : Env) : option string :=
  match o with
  | [] => None
  | (k', v) :: o' => if String.eqb k' k then Some v else first_get k o'
  end.

(** The merged environment in the spec's words, for comparison with
    [mergedEnv]: the call-site value if the call gives the name, otherwise
    the configured default; on top of that the fixed [WORKSPACE]. *)
Definition expected_env (defaults env : Env) (k : string) : option string :=
  if String.eqb k "WORKSPACE" then Some containerWorkspacePath
  else match obj_get k env with
       | Some v => Some v
       | None => obj_get k defaults
       end.

Definition env_flag (kv : string * string) : list string :=
  ["--env"; fst kv +:+ "=" +:+ snd kv].

Definition is_not_initialized (e : Error) : bool :=
  match e with
  | BridgeNotInitialized | ContainerBridgeNotInitialized => true
  | _ => false
  end.

(** Whether the timer fires before the first [error] or [close]. *)
Fixpoint timer_before_settle (events : list ChildEvent) : bool :=
  match events with
  | [] => false
  | TimerFired :: _ => true
  | ChildError _ :: _ | Close _ :: _ => false
  | _ :: rest => timer_before_settle rest
  end.

(** * Properties *)

(** ** Tactics *)

(** Decides a whitespace test on partly known bytes by cases on the
    remaining comparisons. *)
Ltac decide_tests :=
  repeat match goal with
         | |- context [N.eqb ?x ?y] => destruct (N.eqb x y)
         | |- context [N.leb ?x ?y] => destruct (N.leb x y)
         end;
  reflexivity.


(** ** Strings *)

Lemma append_nil_r (s : string) : s +:+ "" = s.
Proof. induction s as [|c s IH]; simpl; [reflexivity | f_equal; exact IH]. Qed.

Lemma append_assoc (a b c : string) : (a +:+ b) +:+ c = a +:+ (b +:+ c).
Proof. induction a as [|x a IH]; simpl; [reflexivity | f_equal; exact IH]. Qed.

Lemma join_all_app (l1 l2 : list string) :
  join_all (l1 ++ l2) = join_all l1 +:+ join_all l2.
Proof.
  induction l1 as [|s l1 IH]; simpl; [reflexivity|].
  now rewrite IH, append_assoc.
Qed.

(** ** Printed numbers *)

(** An integer below [2^53] prints as its decimal digits. *)
Lemma number_to_string_exact (z : Z) :
  (0 <= z < 2 ^ 53)%Z -> number_to_string z = decimal z.
Proof.
  intros [Hlo Hhi]. unfold number_to_string, positive_to_string.
  destruct (Z.ltb_spec z 0) as [Hneg|_]; [lia|].
  destruct (Z.ltb_spec z (2 ^ 53)) as [_|Hbig]; [reflexivity | lia].
Qed.

(** From [1e21] on a number prints in exponent form, and above [2^53]
    with the digits of the nearest double only. *)
Lemma number_to_string_large :
  number_to_string (10 ^ 21 - 1) = "1e+21"
  /\ number_to_string (10 ^ 21) = "1e+21"
  /\ number_to_string (2 ^ 70) = "1.1805916207174113e+21"
  /\ number_to_string (2 ^ 60) = "1152921504606847000"
  /\ number_to_string (2 ^ 53 + 1) = "9007199254740992"
  /\ number_to_string (- 2 ^ 64) = "-18446744073709552000"
  /\ number_to_string (2 ^ 1024) = "Infinity"
  /\ timeout_notice (10 ^ 21) = "Command timed out after 1e+21ms".
Proof. vm_compute. repeat split. Qed.

(** ** Trimming *)

Lemma ws2_newline (a : N) : ws2 a 10 = false.
Proof. unfold ws2. cbn. decide_tests. Qed.

Lemma ws3_newline_mid (a c : N) : ws3 a 10 c = false.
Proof. unfold ws3. cbn. decide_tests. Qed.

Lemma ws3_newline_last (a b : N) : ws3 a b 10 = false.
Proof. unfold ws3. cbn. decide_tests. Qed.

Lemma ws3_ms (a : N) : ws3 a 109 115 = false.
Proof. unfold ws3. cbn. decide_tests. Qed.

Lemma trimStart_app_newline (E T : string) :
  trimStart (E +:+ String nl T) =
    if String.eqb (trimStart E) "" then trimStart T else trimStart E +:+ String nl T.
Proof.
  remember (String.length E) as n eqn:Hn. revert E Hn.
  induction n as [n IH] using lt_wf_ind. intros E Hn.
  destruct E as [|c1 r1]; [reflexivity|].
  cbn [String.append trimStart].
  destruct (ws1 (N_of_ascii c1)) eqn:H1.
  { apply (IH (String.length r1)); [subst n; simpl; lia | reflexivity]. }
  destruct r1 as [|c2 r2].
  { cbn [String.append]. change (N_of_ascii nl) with 10%N. rewrite ws2_newline.
    destruct T as [|c3 T]; [reflexivity|]. now rewrite ws3_newline_mid. }
  cbn [String.append].
  destruct (ws2 (N_of_ascii c1) (N_of_ascii c2)) eqn:H2.
  { apply (IH (String.length r2)); [subst n; simpl; lia | reflexivity]. }
  destruct r2 as [|c3 r3].
  { cbn [String.append]. change (N_of_ascii nl) with 10%N. now rewrite ws3_newline_last. }
  cbn [String.append].
  destruct (ws3 (N_of_ascii c1) (N_of_ascii c2) (N_of_ascii c3)) eqn:H3.
  { apply (IH (String.length r3)); [subst n; simpl; lia | reflexivity]. }
  reflexivity.
Qed.

Lemma rev_app_append (a b acc : string) :
  String.rev_app (a +:+ b) acc = String.rev_app b (String.rev_app a acc).
Proof. revert acc. induction a as [|c a IH]; intros acc; [reflexivity|]. simpl. apply IH. Qed.

Lemma rev_app_rev_app (a b c : string) :
  String.rev_app (String.rev_app a b) c = String.rev_app b (a +:+ c).
Proof. revert b c. induction a as [|x a IH]; intros b c; [reflexivity|]. simpl. now rewrite IH. Qed.

Lemma trimEnd_ms (z : string) : trimEnd (z +:+ "ms") = z +:+ "ms".
Proof.
  unfold trimEnd, String.rev. rewrite rev_app_append.
  change (String.rev_app "ms" (String.rev_app z ""))
    with (String "s" (String "m" (String.rev_app z ""))).
  assert (Hkeep : forall r, trimStart_rev (String "s" (String "m" r)) = String "s" (String "m" r)).
  { intros r. cbn [trimStart_rev]. change (ws1 (N_of_ascii "s")) with false.
    change (ws2 (N_of_ascii "m") (N_of_ascii "s")) with false.
    destruct r as [|c r]; [reflexivity|].
    change (N_of_ascii "m") with 109%N. change (N_of_ascii "s") with 115%N.
    now rewrite ws3_ms. }
  rewrite Hkeep.
  change (String "s" (String "m" (String.rev_app z ""))) with (String.rev_app "ms" (String.rev_app z "")).
  rewrite <- rev_app_append, rev_app_rev_app. cbn [String.rev_app]. apply append_nil_r.
Qed.

Lemma timeout_notice_shape (t : Z) :
  exists body, timeout_notice t = String "C" (String "o" (String "m" body)) 
               /\ exists z, timeout_notice t = z +:+ "ms".
Proof.
  unfold timeout_notice. eexists. split; [reflexivity|].
  exists ("Command timed out after " +:+ number_to_string t).
  now rewrite append_assoc.
Qed.

Lemma trim_with_notice (E : string) (t : Z) :
  trim (E +:+ newline +:+ timeout_notice t) =
    if String.eqb (trimStart E) "" then timeout_notice t
    else trimStart E +:+ newline +:+ timeout_notice t.
Proof.
  unfold trim. change (newline +:+ timeout_notice t) with (String nl (timeout_notice t)).
  rewrite trimStart_app_newline.
  destruct (timeout_notice_shape t) as (body & Hbody & z & Hz).
  assert (Hn : trimStart (timeout_notice t) = timeout_notice t) by now rewrite Hbody.
  destruct (String.eqb (trimStart E) "").
  - rewrite Hn, Hz. apply trimEnd_ms.
  - rewrite Hz. replace (trimStart E +:+ String nl (z +:+ "ms"))
      with ((trimStart E +:+ String nl z) +:+ "ms") by now rewrite append_assoc.
    apply trimEnd_ms.
Qed.

(** ** The child process protocol *)

Lemma stdout_chunks_app (e1 e2 : list ChildEvent) :
  stdout_chunks (e1 ++ e2) = stdout_chunks e1 ++ stdout_chunks e2.
Proof.
  induction e1 as [|ev e1 IH]; simpl; [reflexivity|].
  destruct ev; simpl; now rewrite IH.
Qed.

Lemma stderr_chunks_app (e1 e2 : list ChildEvent) :
  stderr_chunks (e1 ++ e2) = stderr_chunks e1 ++ stderr_chunks e2.
Proof.
  induction e1 as [|ev e1 IH]; simpl; [reflexivity|].
  destruct ev; simpl; now rewrite IH.
Qed.

Lemma run_child_snoc (t : Z) (events : list ChildEvent) (ev : ChildEvent) :
  run_child t (events ++ [ev]) = handle t (run_child t events) ev.
Proof. unfold run_child. now rewrite fold_left_app. Qed.

Lemma run_child_app (t : Z) (e1 e2 : list ChildEvent) :
  run_child t (e1 ++ e2) = fold_left (handle t) e2 (run_child t e1).
Proof. unfold run_child. now rewrite fold_left_app. Qed.

Lemma unsettled_app (e1 e2 : list ChildEvent) :
  unsettled (e1 ++ e2) = unsettled e1 && unsettled e2.
Proof. unfold unsettled. apply forallb_app. Qed.

(** Until an [error] or [close] arrives the promise is pending, the two
    accumulators hold the decoded chunks in order, and the kill signal has
    been sent exactly when the timer has fired. *)
Lemma run_child_unsettled (t : Z) (pre : list ChildEvent) :
  unsettled pre = true ->
  run_child t pre =
    {| run_stdout := join_all (map toString (stdout_chunks pre));
       run_stderr := join_all (map toString (stderr_chunks pre));
       timedOut := existsb is_timer pre;
       timer := negb (existsb is_timer pre);
       killed := if existsb is_timer pre then ["SIGKILL"] else [];
       resolved := None |}.
Proof.
  induction pre as [|ev pre IH] using rev_ind; intros Hu; [reflexivity|].
  rewrite unsettled_app in Hu. apply andb_prop in Hu as [Hpre Hev].
  rewrite run_child_snoc, (IH Hpre).
  rewrite stdout_chunks_app, stderr_chunks_app, !map_app, !join_all_app, existsb_app.
  destruct ev; simpl in *; try discriminate;
    rewrite ?append_nil_r, ?orb_false_r; try reflexivity.
  destruct (existsb is_timer pre); reflexivity.
Qed.

(** Once resolved, the promise keeps its value. *)
Lemma resolved_stable (t : Z) (events : list ChildEvent) (st : Run) (r : ExecutionResult) :
  resolved st = Some r -> resolved (fold_left (handle t) events st) = Some r.
Proof.
  revert st. induction events as [|ev events IH]; intros st Hr; [exact Hr|].
  simpl. apply IH.
  destruct ev; simpl; try exact Hr.
  - destruct (timer st); exact Hr.
  - now rewrite Hr.
  - destruct (timedOut st); simpl; now rewrite Hr.
Qed.

(** Every trace either never settles or splits at its first settling event. *)
Lemma first_settling (events : list ChildEvent) :
  unsettled events = true \/
  exists pre ev post,
    events = pre ++ ev :: post /\ unsettled pre = true /\ is_settling ev = true.
Proof.
  induction events as [|ev events IH]; [now left|].
  destruct (is_settling ev) eqn:Hev.
  - right. exists [], ev, events. repeat split; assumption.
  - destruct IH as [Hu | (pre & ev' & post & -> & Hpre & Hev')].
    + left. change (unsettled (ev :: events)) with (negb (is_settling ev) && unsettled events).
      now rewrite Hev, Hu.
    + right. exists (ev :: pre), ev', post. repeat split; [|exact Hev'].
      change (unsettled (ev :: pre)) with (negb (is_settling ev) && unsettled pre).
      now rewrite Hev, Hpre.
Qed.

(** Nothing is killed once the timer is cleared. *)
Lemma cleared_frozen (t : Z) (events : list ChildEvent) (st : Run) :
  timer st = false ->
  killed (fold_left (handle t) events st) = killed st.
Proof.
  revert st. induction events as [|ev events IH]; intros st Ht; [reflexivity|].
  simpl. rewrite IH.
  - destruct ev; simpl; try reflexivity.
    + now rewrite Ht.
    + destruct (timedOut st); reflexivity.
  - destruct ev; simpl; try exact Ht; try reflexivity.
    + now rewrite Ht.
    + destruct (timedOut st); reflexivity.
Qed.

Lemma run_child_settles (t : Z) (pre post : list ChildEvent) (ev : ChildEvent) :
  unsettled pre = true -> is_settling ev = true ->
  resolved (run_child t (pre ++ ev :: post)) = Some (settled_with t pre ev)
  /\ killed (run_child t (pre ++ ev :: post)) = if existsb is_timer pre then ["SIGKILL"] else [].
Proof.
  intros Hpre Hev.
  rewrite run_child_app. simpl.
  pose proof (run_child_unsettled t pre Hpre) as Hrun.
  set (st := handle t (run_child t pre) ev).
  assert (Hst : resolved st = Some (settled_with t pre ev) /\
                killed st = (if existsb is_timer pre then ["SIGKILL"] else []) /\
                timer st = false).
  { subst st. rewrite Hrun. destruct ev; try discriminate; simpl.
    - repeat split; reflexivity.
    - destruct (existsb is_timer pre); simpl; repeat split; reflexivity. }
  destruct Hst as (Hres & Hk & Ht). split.
  - now apply resolved_stable.
  - rewrite <- Hk. now apply cleared_frozen.
Qed.

Section execution.
Context {S : Type} `{HostFs S}.
Variable h : Host.

Lemma executeCommand_inv (br : Bridge) (command : string) (cwd : option string)
    (env : option Env) (fs : S) (events : list ChildEvent) (run : Run) :
  executeCommand h br command cwd env fs events = Ok run ->
  exists sp, executeCommand_spawn h br command cwd env fs = Ok sp
             /\ run = run_child (spawn_timeoutMs sp) events.
Proof.
  unfold executeCommand. destruct (executeCommand_spawn _ _ _ _ _ _) as [sp|e]; simpl.
  - intros [= <-]. now exists sp.
  - discriminate.
Qed.

Lemma spawn_timeout (br : Bridge) (command : string) (cwd : option string)
    (env : option Env) (fs : S) (sp : Spawn) :
  executeCommand_spawn h br command cwd env fs = Ok sp ->
  spawn_timeoutMs sp = timeoutMs br.
Proof.
  unfold executeCommand_spawn.
  destruct (initialized br); [|discriminate].
  destruct (runtime br); [|discriminate].
  destruct (match cwd with Some _ => _ | None => _ end) as [hostCwd|e]; simpl; [|discriminate].
  destruct (buildRuntimeArgs _ _ _ _ _) as [args|e]; simpl; [|discriminate].
  now intros [= <-].
Qed.

(** C10. Whenever [executeCommand] produces a result, its [exitCode] is a
    number: 1 when the promise was settled by the child's [error] event,
    124 when it was settled by [close] after the timer had fired, and
    otherwise the code passed to [close], or 1 when that code is null. *)
Theorem executeCommand_exitCode_never_null (br : Bridge) (command : string)
    (cwd : option string) (env : option Env) (fs : S) (events : list ChildEvent)
    (run : Run) (r : ExecutionResult) :
  executeCommand h br command cwd env fs events = Ok run ->
  resolved run = Some r ->
  exists n : Z,
    exitCode r = Some n /\
    exists pre ev post,
      events = pre ++ ev :: post /\ unsettled pre = true /\
      match ev with
      | ChildError _ => n = 1%Z
      | Close code => if existsb is_timer pre then n = 124%Z else n = default 1%Z code
      | _ => False
      end.
Proof.
  intros Hexec Hres.
  apply executeCommand_inv in Hexec as (sp & _ & ->).
  destruct (first_settling events) as [Hu | (pre & ev & post & -> & Hpre & Hev)].
  - rewrite (run_child_unsettled _ _ Hu) in Hres. discriminate.
  - destruct (run_child_settles (spawn_timeoutMs sp) pre post ev Hpre Hev) as [Hr _].
    rewrite Hr in Hres. injection Hres as <-.
    destruct ev; try discriminate; simpl.
    + exists 1%Z. split; [reflexivity|]. exists pre, (ChildError msg), post. auto.
    + destruct (existsb is_timer pre) eqn:Ht; simpl.
      * exists 124%Z. split; [reflexivity|]. exists pre, (Close code), post.
        rewrite Ht. auto.
      * exists (default 1%Z code). split; [reflexivity|]. exists pre, (Close code), post.
        rewrite Ht. auto.
Qed.

(** C3, amended. When the timer fires before the child closes and the
    child reports no error before it closes, the child is sent SIGKILL
    and the call returns, at [close], a result with [success = false] and
    [exitCode = 124]. Its [stdout] is everything received on that stream
    up to the close. Its [stderr] is everything received on that stream
    up to the close followed on a new line by the timeout notice,
    trimmed: the output without its leading white space, then the
    notice. *)
Theorem executeCommand_timeout (br : Bridge) (command : string) (cwd : option string)
    (env : option Env) (fs : S) (sp : Spawn)
    (pre post : list ChildEvent) (code : option Z) :
  executeCommand_spawn h br command cwd env fs = Ok sp ->
  unsettled pre = true ->
  existsb is_timer pre = true ->
  let out := join_all (map toString (stdout_chunks pre)) in
  let err := join_all (map toString (stderr_chunks pre)) in
  exists run r,
    executeCommand h br command cwd env fs (pre ++ Close code :: post) = Ok run
    /\ killed run = ["SIGKILL"]
    /\ resolved run = Some r
    /\ success r = false
    /\ exitCode r = Some 124%Z
    /\ stdout r = out
    /\ stderr r = trim (err +:+ newline +:+ timeout_notice (timeoutMs br))
    /\ stderr r = if String.eqb (trimStart err) "" then timeout_notice (timeoutMs br)
                  else trimStart err +:+ newline +:+ timeout_notice (timeoutMs br).
Proof.
  intros Hsp Hpre Ht out err.
  exists (run_child (spawn_timeoutMs sp) (pre ++ Close code :: post)).
  exists {| success := false; stdout := out;
            stderr := trim (err +:+ newline +:+ timeout_notice (timeoutMs br));
            exitCode := Some 124%Z |}.
  unfold executeCommand. rewrite Hsp. cbn [mbind result_bind].
  destruct (run_child_settles (spawn_timeoutMs sp) pre post (Close code) Hpre eq_refl)
    as [Hr Hk].
  rewrite Hk, Hr, Ht. cbn [settled_with]. rewrite Ht, (spawn_timeout _ _ _ _ _ _ Hsp).
  repeat split. cbn [stderr]. apply trim_with_notice.
Qed.

(** C4, amended. When the child closes with code [n], and before that
    close the timer has not fired and the child has reported no error,
    the call returns [success = (n == 0)] and [exitCode = n], and no
    signal is sent; [stdout] and [stderr] are exactly the bytes received
    on the stream whenever every chunk received on it is well-formed
    UTF-8 text. *)
Theorem executeCommand_completed (br : Bridge) (command : string) (cwd : option string)
    (env : option Env) (fs : S) (sp : Spawn)
    (pre post : list ChildEvent) (n : Z) :
  executeCommand_spawn h br command cwd env fs = Ok sp ->
  unsettled pre = true ->
  existsb is_timer pre = false ->
  exists run r,
    executeCommand h br command cwd env fs (pre ++ Close (Some n) :: post) = Ok run
    /\ killed run = []
    /\ resolved run = Some r
    /\ success r = Z.eqb n 0
    /\ exitCode r = Some n
    /\ (Forall utf8_text (stdout_chunks pre) -> stdout r = join_all (stdout_chunks pre))
    /\ (Forall utf8_text (stderr_chunks pre) -> stderr r = join_all (stderr_chunks pre)).
Proof.
  intros Hsp Hpre Ht.
  exists (run_child (spawn_timeoutMs sp) (pre ++ Close (Some n) :: post)).
  exists (settled_with (spawn_timeoutMs sp) pre (Close (Some n))).
  unfold executeCommand. rewrite Hsp. simpl. split; [reflexivity|].
  destruct (run_child_settles (spawn_timeoutMs sp) pre post (Close (Some n)) Hpre eq_refl)
    as [Hr Hk].
  rewrite Hk, Hr, Ht. simpl. rewrite Ht. simpl.
  assert (Hid : forall l, Forall utf8_text l -> map toString l = l).
  { induction 1 as [|d l Hd _ IH]; simpl; [reflexivity|]. now rewrite Hd, IH. }
  split; [reflexivity|]. split; [reflexivity|]. split; [now destruct n|].
  split; [reflexivity|].
  split; intros Hall; now rewrite (Hid _ Hall).
Qed.

End execution.

(** ** Lifecycle *)

Section lifecycle.
Context {S : Type} `{HostFs S}.
Variable h : Host.

Lemma validatePath_fresh (p : string) (fs : S) :
  validatePath h (new_bridge h) p fs = Err BridgeNotInitialized.
Proof. reflexivity. Qed.

(** [shutdown] leaves the workspace path in place, so the path guard, and
    with it every file operation, behaves after it as before. *)
Lemma validatePath_shutdown (br : Bridge) (p : string) (fs : S) :
  validatePath h (shutdown br) p fs = validatePath h br p fs.
Proof. reflexivity. Qed.

(** C5, amended. On a bridge on which [initialize] was never called,
    [executeCommand], [readFile], [writeFile], [listDirectory],
    [deleteFile], [createDirectory] and [copyFile] fail with a
    not-initialized error and leave the filesystem alone, while
    [fileExists] answers [false]; after [shutdown], [executeCommand]
    fails with a not-initialized error. *)
Theorem not_initialized_operations (fs : S) :
  (forall command cwd env events,
      executeCommand h (new_bridge h) command cwd env fs events
      = Err ContainerBridgeNotInitialized)
  /\ (forall p, readFile h (new_bridge h) p fs = Err BridgeNotInitialized)
  /\ (forall p content,
         writeFile h (new_bridge h) p content fs = (Err BridgeNotInitialized, fs))
  /\ (forall p, listDirectory h (new_bridge h) p fs = Err BridgeNotInitialized)
  /\ (forall p, fileExists h (new_bridge h) p fs = Ok false)
  /\ (forall p, deleteFile h (new_bridge h) p fs = (Err BridgeNotInitialized, fs))
  /\ (forall p, createDirectory h (new_bridge h) p fs = (Err BridgeNotInitialized, fs))
  /\ (forall src dest,
         copyFile h (new_bridge h) src dest fs = (Err BridgeNotInitialized, fs))
  /\ (forall br command cwd env events,
         executeCommand h (shutdown br) command cwd env fs events
         = Err ContainerBridgeNotInitialized)
  /\ is_not_initialized BridgeNotInitialized = true
  /\ is_not_initialized ContainerBridgeNotInitialized = true.
Proof. repeat split; intros; reflexivity. Qed.


(** A successful [initialize] makes the bridge ready on the resolved
    workspace path, which exists. *)
Lemma initialize_success (br br' : Bridge) (cfg : SandboxConfig) (fs : S) :
  initialize h br cfg fs = (Ok tt, br') ->
  initialized br' = true
  /\ is_Some (runtime br')
  /\ config br' = Some cfg
  /\ workspacePath br' = path.resolve (cwd h) (cfg_workspacePath cfg)
  /\ existsSync (workspacePath br') fs = true.
Proof.
  unfold initialize.
  destruct (negb (String.eqb (platform h) "linux")); [intros [=]|].
  destruct (negb (existsSync _ fs)) eqn:He; [intros [=]|].
  destruct (status_runtime (checkLinuxContainerStatus h)) as [rt|]; [|intros [=]].
  destruct (negb (default false (status_rootless (checkLinuxContainerStatus h))));
    [intros [=]|].
  destruct (negb (ensureImage h rt _)); [intros [=]|].
  intros [= <-]. simpl. repeat split; eauto.
  now apply negb_false_iff in He.
Qed.

End lifecycle.

(** ** The forwarded environment *)

Lemma first_get_obj_set (k k' v : string) (o : Env) :
  first_get k (obj_set k' v o) = if String.eqb k' k then Some v else first_get k o.
Proof.
  induction o as [|[k0 v0] o IH]; simpl; [reflexivity|].
  destruct (String.eqb_spec k0 k') as [->|Hne]; simpl.
  - now destruct (String.eqb k' k).
  - rewrite IH. destruct (String.eqb_spec k0 k) as [->|Hne']; [|reflexivity].
    destruct (String.eqb_spec k' k) as [->|_]; [congruence | reflexivity].
Qed.

Lemma first_get_spread (k : string) (source target : Env) :
  first_get k (spread target source) =
    match obj_get k source with
    | Some v => Some v
    | None => first_get k target
    end.
Proof.
  unfold spread. revert target.
  induction source as [|[k0 v0] source IH]; intros target; simpl; [reflexivity|].
  rewrite IH, first_get_obj_set.
  destruct (obj_get k source); [reflexivity|].
  now destruct (String.eqb k0 k).
Qed.

Lemma keys_in_obj_set (x k v : string) (o : Env) :
  In x (map fst (obj_set k v o)) -> x = k \/ In x (map fst o).
Proof.
  induction o as [|[k0 v0] o IH]; simpl.
  - intros [<-|[]]. now left.
  - destruct (String.eqb k0 k); simpl; [tauto|].
    intros [<-|Hx]; [tauto|]. destruct (IH Hx); tauto.
Qed.

Lemma keys_obj_set (k v : string) (o : Env) :
  List.NoDup (map fst o) -> List.NoDup (map fst (obj_set k v o)).
Proof.
  induction o as [|[k0 v0] o IH]; simpl; intros Hnd.
  - constructor; [intros []|constructor].
  - inversion Hnd as [|? ? Hk0 Hnd']; subst.
    destruct (String.eqb_spec k0 k) as [->|Hne]; simpl; [now constructor|].
    constructor; [|now apply IH].
    intros Hx. apply keys_in_obj_set in Hx as [->|Hx]; [congruence | contradiction].
Qed.

Lemma keys_spread (source target : Env) :
  List.NoDup (map fst target) -> List.NoDup (map fst (spread target source)).
Proof.
  unfold spread. revert target.
  induction source as [|[k v] source IH]; intros target Hnd; simpl; [exact Hnd|].
  apply IH. now apply keys_obj_set.
Qed.

Lemma first_get_In (k v : string) (o : Env) :
  List.NoDup (map fst o) -> (In (k, v) o <-> first_get k o = Some v).
Proof.
  induction o as [|[k0 v0] o IH]; simpl; intros Hnd.
  - split; [intros [] | discriminate].
  - inversion Hnd as [|? ? Hk0 Hnd']; subst.
    destruct (String.eqb_spec k0 k) as [->|Hne].
    + split.
      * intros [[= ->]|Hin]; [reflexivity|].
        exfalso. apply Hk0. apply in_map_iff. now exists (k, v).
      * intros [= ->]. now left.
    + rewrite <- (IH Hnd'). split; [intros [[= ? ?]|?]; [congruence | assumption] | tauto].
Qed.

Lemma env_args_filter (merged : Env) :
  env_args merged = flat_map env_flag (List.filter (fun kv => safe_env_name (fst kv)) merged).
Proof.
  unfold env_args. induction merged as [|kv merged IH]; [reflexivity|].
  cbn [flat_map List.filter].
  destruct (safe_env_name (fst kv)); cbn [flat_map]; now rewrite IH.
Qed.

Lemma keys_filter (f : string * string -> bool) (o : Env) :
  List.NoDup (map fst o) -> List.NoDup (map fst (List.filter f o)).
Proof.
  induction o as [|kv o IH]; simpl; intros Hnd; [constructor|].
  inversion Hnd as [|? ? Hk Hnd']; subst.
  destruct (f kv); simpl; [|now apply IH].
  constructor; [|now apply IH].
  intros Hin. apply Hk. apply in_map_iff in Hin as (kv' & <- & Hin).
  apply in_map_iff. exists kv'. split; [reflexivity|].
  now apply List.filter_In in Hin as [].
Qed.

Lemma mergedEnv_keys (br : Bridge) (env : option Env) :
  List.NoDup (map fst (mergedEnv br env)).
Proof.
  unfold mergedEnv. apply keys_obj_set, keys_spread, keys_spread. constructor.
Qed.

Lemma mergedEnv_get (br : Bridge) (env : option Env) (k : string) :
  first_get k (mergedEnv br env)
  = expected_env (default [] (config br ≫= cfg_env)) (default [] env) k.
Proof.
  unfold mergedEnv, expected_env.
  rewrite first_get_obj_set, !first_get_spread.
  rewrite (String.eqb_sym k). destruct (String.eqb "WORKSPACE" k); [reflexivity|].
  destruct (obj_get k (default [] env)); [reflexivity|].
  now destruct (obj_get k _).
Qed.

Section environment.
Context {S : Type} `{HostFs S}.
Variable h : Host.

(** C7, amended. The container is started with one [--env NAME=value]
    pair for every name that matches the identifier pattern and has a
    value in the merged environment, and with nothing for any other name.
    The value is the call-site one if the call gives the name, otherwise
    the configured default; [WORKSPACE] is the exception and is always
    [/workspace], whatever the call site or the configuration say. *)
Theorem executeCommand_environment (br : Bridge) (command : string)
    (cwd : option string) (env : option Env) (fs : S) (sp : Spawn) :
  executeCommand_spawn h br command cwd env fs = Ok sp ->
  exists rt workdir forwarded,
    runtime br = Some rt
    /\ spawn_args sp =
         isolation_args br workdir ++ user_args h rt
         ++ flat_map env_flag forwarded
         ++ [image br; "/bin/bash"; "-lc"; command]
    /\ List.NoDup (map fst forwarded)
    /\ (forall k v,
           In (k, v) forwarded <->
           safe_env_name k = true
           /\ expected_env (default [] (config br ≫= cfg_env)) (default [] env) k = Some v)
    /\ In ("WORKSPACE", containerWorkspacePath) forwarded.
Proof.
  unfold executeCommand_spawn.
  destruct (initialized br); [|discriminate].
  destruct (runtime br) as [rt|] eqn:Hrt; [|discriminate].
  destruct (match cwd with Some _ => _ | None => _ end) as [hostCwd|e]; simpl; [|discriminate].
  unfold buildRuntimeArgs. rewrite Hrt. simpl. intros [= <-]. simpl.
  set (merged := mergedEnv br env).
  exists rt, (toContainerPath h br hostCwd),
    (List.filter (fun kv => safe_env_name (fst kv)) merged).
  assert (Hiff : forall k v,
             In (k, v) (List.filter (fun kv => safe_env_name (fst kv)) merged) <->
             safe_env_name k = true
             /\ expected_env (default [] (config br ≫= cfg_env)) (default [] env) k = Some v).
  { intros k v. rewrite List.filter_In. simpl.
    rewrite (first_get_In k v merged (mergedEnv_keys br env)).
    subst merged. rewrite mergedEnv_get. tauto. }
  split; [reflexivity|]. split; [now rewrite env_args_filter|].
  split; [apply keys_filter, mergedEnv_keys|]. split; [exact Hiff|].
  apply Hiff. split; reflexivity.
Qed.

End environment.

(** ** Paths *)

Lemma prefix_refl (s : string) : String.prefix s s = true.
Proof.
  induction s as [|c s IH]; simpl; [reflexivity|].
  destruct (ascii_dec c c); [exact IH | congruence].
Qed.



Lemma split_cons_slash (s : string) :
  path.split (String slash s) = "" :: path.split s.
Proof. reflexivity. Qed.

Lemma split_nonempty (s : string) : path.split s <> [].
Proof.
  destruct s as [|c s]; simpl; [discriminate|].
  destruct (Ascii.eqb c slash); [discriminate|].
  destruct (path.split s); discriminate.
Qed.

Lemma split_app_slash (a b : string) :
  path.split (a +:+ String slash b) = path.split a ++ path.split b.
Proof.
  induction a as [|c a IH]; [reflexivity|].
  simpl. rewrite IH.
  destruct (Ascii.eqb c slash); [reflexivity|].
  pose proof (split_nonempty a) as Hne.
  destruct (path.split a); [congruence | reflexivity].
Qed.

Lemma split_segment (s : string) : has_slash s = false -> path.split s = [s].
Proof.
  induction s as [|c s IH]; simpl; [reflexivity|].
  intros Hs. apply orb_false_elim in Hs as [Hc Hs].
  rewrite Hc, (IH Hs). reflexivity.
Qed.

Lemma split_no_slash (s : string) : Forall (fun seg => has_slash seg = false) (path.split s).
Proof.
  induction s as [|c s IH]; simpl; [repeat constructor|].
  destruct (Ascii.eqb c slash) eqn:Hc; [constructor; [reflexivity | exact IH]|].
  destruct (path.split s) as [|x l]; [repeat constructor; simpl; now rewrite Hc|].
  inversion IH as [|? ? Hx Hl]; subst.
  constructor; [simpl; now rewrite Hc, Hx | exact Hl].
Qed.

Lemma clean_no_slash (l : list string) :
  Forall clean l -> Forall (fun seg => has_slash seg = false) l.
Proof. intros Hl. eapply Forall_impl; [exact Hl|]. now intros seg (_ & _ & _ & Hs). Qed.

Lemma split_join (l : list string) :
  Forall (fun seg => has_slash seg = false) l -> l <> [] ->
  path.split (path.join_segs l) = l.
Proof.
  induction l as [|s l IH]; intros Hl Hne; [congruence|].
  inversion Hl as [|? ? Hs Hl']; subst.
  destruct l as [|s' l]; [now apply split_segment|].
  change (path.join_segs (s :: s' :: l)) with (s +:+ String slash (path.join_segs (s' :: l))).
  rewrite split_app_slash, (split_segment s Hs), IH; [reflexivity | exact Hl' | discriminate].
Qed.

Lemma normalize_step_clean (stack : list string) (seg : string) :
  clean seg -> path.normalize_step false stack seg = seg :: stack.
Proof.
  intros (H1 & H2 & H3 & _). unfold path.normalize_step.
  apply String.eqb_neq in H1, H2, H3. now rewrite H1, H2, H3.
Qed.

Lemma fold_normalize_clean (l stack : list string) :
  Forall clean l -> fold_left (path.normalize_step false) l stack = rev l ++ stack.
Proof.
  revert stack. induction l as [|s l IH]; intros stack Hl; [reflexivity|].
  inversion Hl as [|? ? Hs Hl']; subst.
  simpl. rewrite (normalize_step_clean _ _ Hs), (IH _ Hl'), <- app_assoc. reflexivity.
Qed.

Lemma normalize_segs_clean (l : list string) :
  Forall clean l -> path.normalize_segs false l = l.
Proof.
  intros Hl. unfold path.normalize_segs.
  rewrite (fold_normalize_clean _ _ Hl), app_nil_r. apply rev_involutive.
Qed.

Lemma normalize_step_keeps_clean (stack : list string) (seg : string) :
  Forall clean stack -> has_slash seg = false ->
  Forall clean (path.normalize_step false stack seg).
Proof.
  intros Hst Hseg. unfold path.normalize_step.
  destruct (String.eqb_spec seg "") as [->|H1]; [exact Hst|].
  destruct (String.eqb_spec seg ".") as [->|H2]; [exact Hst|].
  destruct (String.eqb_spec seg "..") as [->|H3]; simpl.
  - destruct stack as [|top below]; [constructor|].
    inversion Hst; subst. now destruct (String.eqb top "..").
  - constructor; [repeat split; assumption | exact Hst].
Qed.

Lemma fold_normalize_keeps_clean (l stack : list string) :
  Forall clean stack -> Forall (fun seg => has_slash seg = false) l ->
  Forall clean (fold_left (path.normalize_step false) l stack).
Proof.
  revert stack. induction l as [|s l IH]; intros stack Hst Hl; [exact Hst|].
  inversion Hl; subst. simpl. apply IH; [|assumption].
  now apply normalize_step_keeps_clean.
Qed.

Lemma normalize_segs_split_clean (p : string) :
  Forall clean (path.normalize_segs false (path.split p)).
Proof.
  unfold path.normalize_segs. apply Forall_rev.
  apply fold_normalize_keeps_clean; [constructor | apply split_no_slash].
Qed.

(** Empty segments, from a leading, trailing or doubled separator, do not
    count. *)
Lemma normalize_segs_empty_l (b : bool) (l : list string) :
  path.normalize_segs b ("" :: l) = path.normalize_segs b l.
Proof. reflexivity. Qed.

Lemma normalize_segs_empty_r (b : bool) (l : list string) :
  path.normalize_segs b (l ++ [""]) = path.normalize_segs b l.
Proof. unfold path.normalize_segs. now rewrite fold_left_app. Qed.

Lemma normalizeString_slash_r (p : string) (b : bool) :
  path.normalizeString (p +:+ "/") b = path.normalizeString p b.
Proof.
  unfold path.normalizeString.
  change (p +:+ "/") with (p +:+ String slash "").
  rewrite split_app_slash. simpl. now rewrite normalize_segs_empty_r.
Qed.

Lemma normalizeString_slash_l (p : string) (b : bool) :
  path.normalizeString ("/" +:+ p) b = path.normalizeString p b.
Proof. reflexivity. Qed.

Lemma normalizeString_join (l : list string) :
  Forall clean l -> path.normalizeString (path.join_segs l) false = path.join_segs l.
Proof.
  intros Hl. unfold path.normalizeString.
  destruct l as [|s l]; [reflexivity|].
  rewrite split_join; [|now apply clean_no_slash | discriminate].
  now rewrite normalize_segs_clean.
Qed.

Lemma isAbsolute_nonempty (p : string) : isAbsolute p = true -> String.eqb p "" = false.
Proof. now destruct p. Qed.

Lemma resolve_absolute (c x : string) :
  isAbsolute x = true -> path.resolve c x = "/" +:+ path.normalizeString x false.
Proof.
  intros Hx. unfold path.resolve.
  rewrite (isAbsolute_nonempty _ Hx), Hx. cbn [negb].
  now rewrite normalizeString_slash_r.
Qed.

Lemma resolve_relative (c p : string) :
  isAbsolute c = true -> isAbsolute p = false ->
  path.resolve c p =
    "/" +:+ path.normalizeString (if String.eqb p "" then c else c +:+ "/" +:+ p) false.
Proof.
  intros Hc Hp. unfold path.resolve.
  rewrite Hp, (isAbsolute_nonempty _ Hc), Hc. cbn [negb].
  destruct (String.eqb p "").
  - now rewrite normalizeString_slash_r.
  - replace (c +:+ "/" +:+ p +:+ "/") with ((c +:+ "/" +:+ p) +:+ "/")
      by now rewrite !append_assoc.
    now rewrite normalizeString_slash_r.
Qed.

Lemma normalizeString_canonical (p : string) :
  canonical ("/" +:+ path.normalizeString p false).
Proof.
  exists (path.normalize_segs false (path.split p)).
  split; [apply normalize_segs_split_clean | reflexivity].
Qed.

(** [path.resolve] returns an absolute path in normal form. *)
Lemma resolve_canonical (c p : string) :
  isAbsolute c = true -> canonical (path.resolve c p).
Proof.
  intros Hc. destruct (isAbsolute p) eqn:Hp.
  - rewrite (resolve_absolute _ _ Hp). apply normalizeString_canonical.
  - rewrite (resolve_relative _ _ Hc Hp). apply normalizeString_canonical.
Qed.

Lemma canonical_absolute (q : string) : canonical q -> isAbsolute q = true.
Proof. now intros (l & _ & ->). Qed.

(** ... and leaves such a path as it is. *)
Lemma canonical_resolve (c q : string) : canonical q -> path.resolve c q = q.
Proof.
  intros Hq. rewrite (resolve_absolute _ _ (canonical_absolute _ Hq)).
  destruct Hq as (l & Hl & ->).
  now rewrite normalizeString_slash_l, (normalizeString_join _ Hl).
Qed.

Lemma last_char_cons (c : ascii) (s : string) :
  s <> "" -> last_char (String c s) = last_char s.
Proof. now destruct s. Qed.

Lemma last_char_nonempty (s : string) : s <> "" -> is_Some (last_char s).
Proof.
  induction s as [|c s IH]; [congruence|]. intros _.
  destruct s as [|d s]; [now exists c|].
  rewrite last_char_cons by discriminate. now apply IH.
Qed.

Lemma last_char_app (a b : string) : b <> "" -> last_char (a +:+ b) = last_char b.
Proof.
  intros Hb. induction a as [|c a IH]; [reflexivity|].
  simpl. rewrite IH. destruct (a +:+ b) eqn:Hab; [|reflexivity].
  destruct a; simpl in Hab; [congruence | discriminate].
Qed.

Lemma last_char_no_slash (s : string) (c : ascii) :
  has_slash s = false -> last_char s = Some c -> Ascii.eqb c slash = false.
Proof.
  induction s as [|d s IH]; simpl; [discriminate|].
  intros Hs. apply orb_false_elim in Hs as [Hd Hs].
  destruct s; [now intros [= <-] | now apply IH].
Qed.

Lemma last_char_join (l : list string) :
  Forall clean l -> l <> [] ->
  exists c, last_char (path.join_segs l) = Some c /\ Ascii.eqb c slash = false.
Proof.
  induction l as [|s l IH]; intros Hl Hne; [congruence|].
  inversion Hl as [|? ? Hs Hl']; subst.
  destruct l as [|s' l].
  - destruct Hs as (Hs & _ & _ & Hns). simpl.
    destruct (last_char_nonempty s Hs) as [c Hc].
    exists c. split; [exact Hc | now apply (last_char_no_slash s)].
  - destruct (IH Hl' ltac:(discriminate)) as (c & Hc & Hcs).
    exists c. split; [|exact Hcs].
    change (path.join_segs (s :: s' :: l)) with (s +:+ "/" +:+ path.join_segs (s' :: l)).
    remember (path.join_segs (s' :: l)) as J eqn:HJ.
    assert (Hj : J <> "") by (intros Heq; now rewrite Heq in Hc).
    rewrite last_char_app; [|now destruct J].
    change ("/" +:+ J) with (String slash J).
    now rewrite last_char_cons.
Qed.

(** [path.normalize] leaves an absolute path in normal form as it is. *)
Lemma canonical_normalize (q : string) : canonical q -> path.normalize q = q.
Proof.
  intros (l & Hl & ->). unfold path.normalize.
  change (String.eqb ("/" +:+ path.join_segs l) "") with false.
  change (isAbsolute ("/" +:+ path.join_segs l)) with true. cbn [negb].
  rewrite normalizeString_slash_l, (normalizeString_join _ Hl).
  destruct (String.eqb_spec (path.join_segs l) "") as [->|Hne]; [reflexivity|].
  destruct l as [|s l]; [now simpl in Hne|].
  destruct (last_char_join (s :: l) Hl ltac:(discriminate)) as (c & Hc & Hcs).
  unfold endsWithSlash.
  change ("/" +:+ path.join_segs (s :: l)) with (String slash (path.join_segs (s :: l))).
  rewrite (last_char_cons _ _ Hne), Hc, Hcs. reflexivity.
Qed.

(** Joining onto an absolute directory and resolving is resolving from that
    directory. *)
Lemma resolve_join (c p : string) :
  isAbsolute c = true -> isAbsolute p = false ->
  path.resolve c (path.join c p) = path.resolve c p.
Proof.
  intros Hc Hp. rewrite (resolve_relative _ _ Hc Hp).
  unfold path.join. rewrite (isAbsolute_nonempty _ Hc).
  set (joined := if String.eqb p "" then c else c +:+ "/" +:+ p).
  assert (Habs : isAbsolute joined = true).
  { subst joined. destruct (String.eqb p ""); [exact Hc|]. now destruct c. }
  rewrite (isAbsolute_nonempty _ Habs).
  unfold path.normalize. rewrite (isAbsolute_nonempty _ Habs), Habs. cbn [negb].
  pose proof (normalize_segs_split_clean joined) as Hclean.
  unfold path.normalizeString at 1 2 3.
  set (l := path.normalize_segs false (path.split joined)) in *.
  assert (Hres : forall t, t = "" \/ t = "/" ->
                 path.resolve c ("/" +:+ path.join_segs l +:+ t) = "/" +:+ path.join_segs l).
  { intros t Ht. rewrite resolve_absolute by reflexivity.
    rewrite normalizeString_slash_l.
    destruct Ht as [->| ->].
    - now rewrite append_nil_r, normalizeString_join.
    - now rewrite normalizeString_slash_r, normalizeString_join. }
  destruct (String.eqb_spec (path.join_segs l) "") as [Heq|Hne].
  - unfold path.normalizeString. fold l. rewrite Heq. reflexivity.
  - unfold path.normalizeString. fold l.
    destruct (endsWithSlash joined).
    + apply (Hres "/"). now right.
    + rewrite <- (append_nil_r (path.join_segs l)) at 1. apply (Hres ""). now left.
Qed.

(** ** The path guard *)

Section guard.
Context {S : Type} `{HostFs S}.
Variable h : Host.

(** The guard on a configured bridge, with the normal forms computed. *)
Lemma validatePath_eval (br : Bridge) (p : string) (fs : S) :
  isAbsolute (cwd h) = true ->
  workspacePath br <> "" ->
  validatePath h br p fs =
    let r := path.resolve (cwd h) p in
    let root := path.normalize (workspacePath br) in
    if negb (startsWith r root) then Err (OutsideWorkspace r)
    else if existsSync r fs then
      match realpathSync r fs with
      | None => Err (FsError "realpath" r)
      | Some real =>
          if negb (startsWith real root) then Err (SymlinkEscape r real) else Ok r
      end
    else Ok r.
Proof.
  intros Hcwd Hws. unfold validatePath.
  apply String.eqb_neq in Hws. rewrite Hws.
  now rewrite (canonical_normalize _ (resolve_canonical (cwd h) p Hcwd)).
Qed.


(** C2, amended. A relative path is resolved against the working directory
    of the host process: validating it is validating the working
    directory joined with it. This is the workspace root joined with it
    when the process runs in the workspace root. *)
Theorem validatePath_relative (br : Bridge) (p : string) (fs : S) :
  isAbsolute (cwd h) = true ->
  isAbsolute p = false ->
  validatePath h br p fs = validatePath h br (path.join (cwd h) p) fs
  /\ (cwd h = workspacePath br ->
      validatePath h br p fs = validatePath h br (path.join (workspacePath br) p) fs).
Proof.
  intros Hcwd Hp.
  assert (Heq : validatePath h br p fs = validatePath h br (path.join (cwd h) p) fs).
  { unfold validatePath. now rewrite (resolve_join _ _ Hcwd Hp). }
  split; [exact Heq|]. intros <-. exact Heq.
Qed.

(** The workspace root passes the guard when it does not exist or its real
    path starts with it, in particular when it is its own real path. *)
Lemma validatePath_root (br : Bridge) (fs : S) :
  canonical (workspacePath br) ->
  existsSync (workspacePath br) fs = false
  \/ (exists real, realpathSync (workspacePath br) fs = Some real
                   /\ startsWith real (workspacePath br) = true) ->
  validatePath h br (workspacePath br) fs = Ok (workspacePath br).
Proof.
  intros Hcan Hfs. unfold validatePath.
  rewrite (isAbsolute_nonempty _ (canonical_absolute _ Hcan)).
  rewrite (canonical_resolve _ _ Hcan), (canonical_normalize _ Hcan).
  unfold startsWith at 1. rewrite prefix_refl. cbn [negb].
  destruct Hfs as [Hno | (real & Hreal & Hstart)].
  - now rewrite Hno.
  - destruct (existsSync _ fs); [|reflexivity]. now rewrite Hreal, Hstart.
Qed.

End guard.

(** ** The in-memory filesystem obeys the law *)

Lemma walk_follow_nofollow (fuel : nat) (t : memfs.Tree) (cur rest k : list string) :
  memfs.walk fuel memfs.Follow t cur rest = Some k ->
  exists k', memfs.walk fuel memfs.NoFollow t cur rest = Some k'.
Proof.
  revert cur rest. induction fuel as [|fuel IH]; intros cur rest.
  - destruct rest; simpl; [eauto | discriminate].
  - destruct rest as [|seg rest]; simpl; [eauto|].
    destruct (String.eqb seg "" || String.eqb seg "."); [apply IH|].
    destruct (String.eqb seg ".."); [apply IH|].
    destruct (t !! (cur ++ [seg])) as [[content| |target]|]; try discriminate.
    + destruct (memfs.is_nil rest); [eauto | discriminate].
    + apply IH.
    + destruct (memfs.is_nil rest); [eauto | apply IH].
Qed.

Lemma walk_delete (fuel : nat) (t : memfs.Tree) (gone cur rest k : list string) :
  memfs.walk fuel memfs.NoFollow (delete gone t) cur rest = Some k ->
  memfs.walk fuel memfs.NoFollow t cur rest = Some k.
Proof.
  revert cur rest. induction fuel as [|fuel IH]; intros cur rest.
  - destruct rest; simpl; [auto | discriminate].
  - destruct rest as [|seg rest]; simpl; [auto|].
    destruct (String.eqb seg "" || String.eqb seg "."); [apply IH|].
    destruct (String.eqb seg ".."); [apply IH|].
    destruct (decide (gone = cur ++ [seg])) as [->|Hne].
    + rewrite lookup_delete_eq. discriminate.
    + rewrite (lookup_delete_ne t _ _ Hne).
      destruct (t !! (cur ++ [seg])) as [[content| |target]|]; try discriminate; auto.
      destruct (memfs.is_nil rest); [auto | apply IH].
Qed.

(** Resolution ends on an entry of the tree, or on an ancestor of the
    directory it started from. *)
Lemma walk_lands (fuel : nat) (mode : memfs.Mode) (t : memfs.Tree) (cur rest k : list string) :
  mode <> memfs.Create ->
  memfs.walk fuel mode t cur rest = Some k ->
  (exists j, k = take j cur) \/ is_Some (t !! k).
Proof.
  intros Hmode. revert cur rest. induction fuel as [|fuel IH]; intros cur rest.
  - destruct rest; simpl; [|discriminate].
    intros [= <-]. left. exists (length cur). now rewrite firstn_all.
  - destruct rest as [|seg rest]; simpl.
    { intros [= <-]. left. exists (length cur). now rewrite firstn_all. }
    destruct (String.eqb seg "" || String.eqb seg "."); [apply IH|].
    destruct (String.eqb seg "..").
    { intros Hw. destruct (IH _ _ Hw) as [[j ->]|Hin]; [left | now right].
      rewrite removelast_firstn_len, take_take. eauto. }
    destruct (t !! (cur ++ [seg])) as [[content| |target]|] eqn:Hlook.
    + destruct (memfs.is_nil rest); [|discriminate].
      intros [= <-]. right. rewrite Hlook. eauto.
    + intros Hw. destruct (IH _ _ Hw) as [[j ->]|Hin]; [|now right].
      destruct (decide (j <= length cur)) as [Hle|Hgt].
      * left. exists j. now rewrite take_app_le.
      * right. rewrite take_ge by (rewrite length_app; simpl; lia).
        rewrite Hlook. eauto.
    + assert (Hfollow :
          memfs.walk fuel mode t (if isAbsolute target then [] else cur)
            (path.split target ++ rest) = Some k ->
          (exists j, k = take j cur) \/ is_Some (t !! k)).
      { intros Hw. destruct (IH _ _ Hw) as [[j ->]|Hin]; [left | now right].
        destruct (isAbsolute target); [exists 0; now destruct j | eauto]. }
      destruct mode; [exact Hfollow | | congruence].
      destruct (memfs.is_nil rest); [|exact Hfollow].
      intros [= <-]. right. rewrite Hlook. eauto.
    + destruct mode; try discriminate. congruence.
Qed.

Lemma memfs_unlink_gone (p : string) (t t' : memfs.Tree) :
  memfs.unlink p t = Some t' -> memfs.exists_ p t' = false.
Proof.
  unfold memfs.unlink, memfs.exists_, memfs.locate.
  generalize memfs.fuel as fuel. intros fuel.
  destruct (memfs.walk fuel memfs.NoFollow t [] (path.split p)) as [key|] eqn:Hkey;
    cbn [mbind option_bind]; [|discriminate].
  intros Hnode.
  assert (Hgone : t' = delete key t /\ key <> []).
  { destruct key as [|x key]; simpl in Hnode; [discriminate Hnode|].
    destruct (t !! (x :: key)) as [[content| |target]|]; try discriminate Hnode;
      injection Hnode as <-; split; congruence. }
  destruct Hgone as [-> Hne].
  destruct (memfs.walk fuel memfs.Follow (delete key t) [] (path.split p))
    as [k|] eqn:Hfollow; [|reflexivity].
  exfalso.
  destruct (walk_follow_nofollow _ _ _ _ _ Hfollow) as [k' Hk'].
  pose proof (walk_delete _ _ _ _ _ _ Hk') as Hsame.
  rewrite Hkey in Hsame. injection Hsame as <-.
  assert (Hmode : memfs.NoFollow <> memfs.Create) by discriminate.
  destruct (walk_lands _ _ _ _ _ _ Hmode Hk') as [[j Hj]|[n Hn]].
  - destruct j; cbn [take] in Hj; congruence.
  - rewrite lookup_delete_eq in Hn. discriminate.
Qed.

#[global] Instance memfs_laws : HostFsLaws memfs.Tree.
Proof. constructor. exact memfs_unlink_gone. Qed.

(** ** Deleting *)

Section deleting.
Context {S : Type} `{HostFsLaws S}.
Variable h : Host.

(** C9. Deleting a valid path that does not exist succeeds and changes
    nothing, and deleting is idempotent: a second call on the same path
    returns what the first returned and leaves the filesystem as the
    first left it. *)
Theorem deleteFile_idempotent (br : Bridge) (p : string) (fs : S) :
  (forall validPath,
      validatePath h br p fs = Ok validPath -> existsSync validPath fs = false ->
      deleteFile h br p fs = (Ok tt, fs))
  /\ deleteFile h br p (snd (deleteFile h br p fs)) = deleteFile h br p fs.
Proof.
  split.
  - intros validPath Hv Hno. unfold deleteFile. now rewrite Hv, Hno.
  - unfold deleteFile at 2 3.
    destruct (validatePath h br p fs) as [validPath|e] eqn:Hv; simpl.
    2:{ unfold deleteFile. now rewrite Hv. }
    destruct (existsSync validPath fs) eqn:Hex; simpl.
    2:{ unfold deleteFile. now rewrite Hv, Hex. }
    destruct (unlinkSync validPath fs) as [fs'|] eqn:Hun; simpl.
    2:{ unfold deleteFile. now rewrite Hv, Hex, Hun. }
    pose proof (unlink_gone _ _ _ Hun) as Hgone.
    assert (Hv' : validatePath h br p fs' = Ok validPath).
    { revert Hv. unfold validatePath.
      destruct (String.eqb (workspacePath br) ""); [discriminate|].
      destruct (negb (startsWith _ _)); [discriminate|].
      intros Hv.
      assert (Hr : validPath = path.resolve (cwd h) p).
      { destruct (existsSync (path.resolve (cwd h) p) fs); [|congruence].
        destruct (realpathSync (path.resolve (cwd h) p) fs) as [real|]; [|discriminate].
        destruct (negb (startsWith real _)); congruence. }
      rewrite <- Hr, Hgone. reflexivity. }
    unfold deleteFile. now rewrite Hv', Hgone.
Qed.

End deleting.

(** ** Decoding *)

Lemma toString_ascii (data : string) :
  forallb (fun c => (N_of_ascii c <? 128)%N) (list_ascii_of_string data) = true ->
  utf8_text data.
Proof.
  unfold utf8_text, toString.
  induction data as [|c data IH]; [reflexivity|].
  cbn [list_ascii_of_string forallb]. intros Hall.
  apply andb_prop in Hall as [Hc Hall].
  cbn [decode_utf8]. unfold utf8_lead. rewrite Hc. now rewrite (IH Hall).
Qed.

(** A two-byte character decodes to itself when it arrives in one chunk and
    to two replacement characters when it is cut between two chunks. *)
Lemma toString_split_sequence :
  let c3 := String (ascii_of_N 195) "" in
  let a9 := String (ascii_of_N 169) "" in
  toString (c3 +:+ a9) = c3 +:+ a9
  /\ toString c3 +:+ toString a9 = replacement +:+ replacement.
Proof. split; reflexivity. Qed.

(** ** The claims on sample runs *)



(** The guard compares strings, so it also lets through a directory next to
    the workspace whose name extends the workspace's. *)
Lemma validatePath_accepts_sibling_prefix :
  ~ within "/home/u/ws" "/home/u/ws-private/key"
  /\ validatePath (sample.host "/app") sample.ready "/home/u/ws-private/key" sample.disk
     = Ok "/home/u/ws-private/key"
  /\ readFile (sample.host "/app") sample.ready "/home/u/ws-private/key" sample.disk
     = Ok "secret".
Proof.
  split; [intros [Heq|Hpre]; [discriminate | vm_compute in Hpre; discriminate]|].
  split; vm_compute; reflexivity.
Qed.

Lemma validatePath_relative_witness :
  isAbsolute (cwd (sample.host "/home/u/ws")) = true
  /\ isAbsolute "a.txt" = false
  /\ validatePath (sample.host "/home/u/ws") sample.ready "a.txt" sample.disk
     = validatePath (sample.host "/home/u/ws") sample.ready
         (path.join (cwd (sample.host "/home/u/ws")) "a.txt") sample.disk
  /\ cwd (sample.host "/home/u/ws") = workspacePath sample.ready
  /\ validatePath (sample.host "/home/u/ws") sample.ready "a.txt" sample.disk
     = validatePath (sample.host "/home/u/ws") sample.ready
         (path.join (workspacePath sample.ready) "a.txt") sample.disk.
Proof.
  split; [reflexivity|]. split; [reflexivity|].
  pose proof (validatePath_relative (sample.host "/home/u/ws") sample.ready "a.txt"
                sample.disk eq_refl eq_refl) as [Hcwd Hroot].
  split; [exact Hcwd|]. split; [reflexivity|]. exact (Hroot eq_refl).
Defined.

(** C2 as stated fails: in a process that runs in [/app], a relative name
    is looked up under [/app] and rejected, although the workspace root
    joined with it is a valid path. *)
Lemma validatePath_relative_uses_cwd :
  validatePath (sample.host "/app") sample.ready "a.txt" sample.disk
  = Err (OutsideWorkspace "/app/a.txt")
  /\ validatePath (sample.host "/app") sample.ready
       (path.join (workspacePath sample.ready) "a.txt") sample.disk
     = Ok "/home/u/ws/a.txt".
Proof. split; vm_compute; reflexivity. Qed.

(** C8. On a workspace whose configured path is a symbolic link,
    [initialize] succeeds and the guard then rejects the workspace root
    itself as a symlink escape. *)
Theorem validatePath_rejects_linked_root :
  initialize (sample.host "/app") (new_bridge (sample.host "/app"))
    (sample.cfg "/home/u/ws") sample.linked_disk = (Ok tt, sample.ready)
  /\ workspacePath sample.ready = "/home/u/ws"
  /\ validatePath (sample.host "/app") sample.ready (workspacePath sample.ready)
       sample.linked_disk
     = Err (SymlinkEscape "/home/u/ws" "/data/ws").
Proof. repeat split; vm_compute; reflexivity. Qed.

(** When the root is its own real path, the guard accepts it on every
    bridge that [initialize] made ready. *)
Lemma validatePath_root_after_initialize {S : Type} `{HostFs S} (h : Host)
    (br0 br : Bridge) (cfg : SandboxConfig) (fs : S) :
  isAbsolute (cwd h) = true ->
  initialize h br0 cfg fs = (Ok tt, br) ->
  realpathSync (workspacePath br) fs = Some (workspacePath br) ->
  validatePath h br (workspacePath br) fs = Ok (workspacePath br).
Proof.
  intros Hcwd Hinit Hreal.
  apply initialize_success in Hinit as (_ & _ & _ & Hws & _).
  apply validatePath_root.
  - rewrite Hws. now apply resolve_canonical.
  - right. exists (workspacePath br). split; [exact Hreal | apply prefix_refl].
Qed.

Lemma executeCommand_exitCode_never_null_witness :
  let events := [StdoutData "out"; Close None; TimerFired] in
  exists run r,
    executeCommand (sample.host "/app") sample.ready "kill -9 $$" None None sample.disk events
    = Ok run
    /\ resolved run = Some r
    /\ exists n : Z,
         exitCode r = Some n /\
         exists pre ev post,
           events = pre ++ ev :: post /\ unsettled pre = true /\
           match ev with
           | ChildError _ => n = 1%Z
           | Close code => if existsb is_timer pre then n = 124%Z else n = default 1%Z code
           | _ => False
           end.
Proof.
  intros events. do 2 eexists.
  assert (Hrun : executeCommand (sample.host "/app") sample.ready "kill -9 $$" None None
                   sample.disk events = Ok (run_child 1000 events)) by reflexivity.
  assert (Hres : resolved (run_child 1000 events)
                 = Some {| success := false; stdout := "out"; stderr := "";
                           exitCode := Some 1%Z |}) by reflexivity.
  split; [exact Hrun|]. split; [exact Hres|].
  exact (executeCommand_exitCode_never_null (sample.host "/app") sample.ready "kill -9 $$"
           None None sample.disk events _ _ Hrun Hres).
Defined.

Lemma executeCommand_timeout_witness :
  let pre := [StdoutData "tick"; StderrData " warn"; TimerFired; StdoutData "tock"] in
  exists sp,
    executeCommand_spawn (sample.host "/app") sample.ready "sleep 30" None None sample.disk
    = Ok sp
    /\ unsettled pre = true
    /\ existsb is_timer pre = true
    /\ exists run r,
         executeCommand (sample.host "/app") sample.ready "sleep 30" None None sample.disk
           (pre ++ [Close None]) = Ok run
         /\ killed run = ["SIGKILL"]
         /\ resolved run = Some r
         /\ success r = false
         /\ exitCode r = Some 124%Z
         /\ stdout r = "ticktock"
         /\ stderr r = "warn" +:+ newline +:+ "Command timed out after 1000ms".
Proof.
  intros pre. eexists.
  assert (Hsp : executeCommand_spawn (sample.host "/app") sample.ready "sleep 30" None None
                  sample.disk = Ok _) by reflexivity.
  split; [exact Hsp|]. split; [reflexivity|]. split; [reflexivity|].
  destruct (executeCommand_timeout (sample.host "/app") sample.ready "sleep 30" None None
              sample.disk _ pre [] None Hsp eq_refl eq_refl)
    as (run & r & Hrun & Hk & Hres & Hs & He & Hout & _ & Herr).
  exists run, r. repeat split; assumption.
Defined.

Lemma executeCommand_completed_witness :
  let pre := [StdoutData "sandbox"; StdoutData ("-ok" +:+ newline)] in
  exists sp,
    executeCommand_spawn (sample.host "/app") sample.ready "echo sandbox-ok" None None
      sample.disk = Ok sp
    /\ unsettled pre = true
    /\ existsb is_timer pre = false
    /\ Forall utf8_text (stdout_chunks pre)
    /\ Forall utf8_text (stderr_chunks pre)
    /\ exists run r,
         executeCommand (sample.host "/app") sample.ready "echo sandbox-ok" None None
           sample.disk (pre ++ [Close (Some 0%Z)]) = Ok run
         /\ killed run = []
         /\ resolved run = Some r
         /\ success r = true
         /\ exitCode r = Some 0%Z
         /\ stdout r = "sandbox-ok" +:+ newline
         /\ stderr r = "".
Proof.
  intros pre. eexists.
  assert (Hsp : executeCommand_spawn (sample.host "/app") sample.ready "echo sandbox-ok"
                  None None sample.disk = Ok _) by reflexivity.
  assert (Hout : Forall utf8_text (stdout_chunks pre)) by (repeat constructor).
  assert (Herr : Forall utf8_text (stderr_chunks pre)) by constructor.
  split; [exact Hsp|]. split; [reflexivity|]. split; [reflexivity|].
  split; [exact Hout|]. split; [exact Herr|].
  destruct (executeCommand_completed (sample.host "/app") sample.ready "echo sandbox-ok"
              None None sample.disk _ pre [] 0%Z Hsp eq_refl eq_refl)
    as (run & r & Hrun & Hk & Hres & Hs & He & Ho & Hr).
  exists run, r. repeat split; try assumption.
  - exact (Ho Hout).
  - exact (Hr Herr).
Defined.

(** C3 as stated fails: the [stderr] of a run that timed out is not the
    output collected on that stream, the timeout notice is added to it. *)
Lemma executeCommand_timeout_adds_notice :
  let events := [StderrData "warn"; TimerFired; Close None] in
  join_all (map toString (stderr_chunks events)) = "warn"
  /\ exists run r,
       executeCommand (sample.host "/app") sample.ready "sleep 30" None None sample.disk
         events = Ok run
       /\ killed run = ["SIGKILL"]
       /\ resolved run = Some r
       /\ exitCode r = Some 124%Z
       /\ stderr r = "warn" +:+ newline +:+ "Command timed out after 1000ms"
       /\ stderr r <> join_all (map toString (stderr_chunks events)).
Proof.
  intros events. split; [reflexivity|].
  exists (run_child 1000 events),
    {| success := false; stdout := "";
       stderr := "warn" +:+ newline +:+ "Command timed out after 1000ms";
       exitCode := Some 124%Z |}.
  repeat split; try reflexivity. discriminate.
Qed.

(** An error reported by the child settles the call with exit code 1,
    whatever comes after it: a close with a code of its own when the
    child could not be spawned, or the close of a run whose timer had
    fired and whose kill failed. *)
Lemma executeCommand_error_before_close :
  (exists run r,
     executeCommand (sample.host "/app") sample.ready "true" None None sample.disk
       [ChildError "spawn podman ENOENT"; Close (Some (-2)%Z)] = Ok run
     /\ killed run = []
     /\ resolved run = Some r
     /\ exitCode r = Some 1%Z
     /\ stderr r = "spawn podman ENOENT")
  /\ (exists run r,
        executeCommand (sample.host "/app") sample.ready "sleep 30" None None sample.disk
          [TimerFired; ChildError "kill EPERM"; Close None] = Ok run
        /\ killed run = ["SIGKILL"]
        /\ resolved run = Some r
        /\ exitCode r = Some 1%Z
        /\ stderr r = "kill EPERM").
Proof.
  split.
  - exists (run_child 1000 [ChildError "spawn podman ENOENT"; Close (Some (-2)%Z)]),
      {| success := false; stdout := ""; stderr := "spawn podman ENOENT";
         exitCode := Some 1%Z |}.
    repeat split; reflexivity.
  - exists (run_child 1000 [TimerFired; ChildError "kill EPERM"; Close None]),
      {| success := false; stdout := ""; stderr := "kill EPERM"; exitCode := Some 1%Z |}.
    repeat split; reflexivity.
Qed.

(** C4 as stated fails: a byte that is not UTF-8 text comes back as the
    replacement character, not as the byte the command wrote. *)
Lemma executeCommand_replaces_invalid_bytes :
  let byte := String (ascii_of_N 255) "" in
  let events := [StdoutData byte; Close (Some 0%Z)] in
  join_all (stdout_chunks events) = byte
  /\ exists run r,
       executeCommand (sample.host "/app") sample.ready "printf '\377'" None None sample.disk
         events = Ok run
       /\ resolved run = Some r
       /\ exitCode r = Some 0%Z
       /\ stdout r = replacement
       /\ stdout r <> join_all (stdout_chunks events).
Proof.
  intros byte events. split; [reflexivity|].
  exists (run_child 1000 events),
    {| success := true; stdout := replacement; stderr := ""; exitCode := Some 0%Z |}.
  repeat split; try reflexivity. discriminate.
Qed.

(** C5 as stated fails: on a bridge that was never initialized
    [fileExists] does not fail, it answers [false]. *)
Lemma fileExists_fresh_answers_false :
  fileExists (sample.host "/app") (new_bridge (sample.host "/app")) "/home/u/ws/a.txt"
    sample.disk = Ok false
  /\ forall e,
       fileExists (sample.host "/app") (new_bridge (sample.host "/app")) "/home/u/ws/a.txt"
         sample.disk <> Err e.
Proof. split; [reflexivity | intros e; discriminate]. Qed.

(** After [shutdown] the file operations still work on the old workspace. *)
Lemma readFile_after_shutdown :
  readFile (sample.host "/app") (shutdown sample.ready) "/home/u/ws/a.txt" sample.disk
  = Ok "hello".
Proof. vm_compute; reflexivity. Qed.



Lemma executeCommand_environment_witness :
  let env := Some [("MODE", "fast"); ("bad-name", "x")] in
  exists sp,
    executeCommand_spawn (sample.host "/app") sample.ready "env" None env sample.disk = Ok sp
    /\ exists rt workdir forwarded,
         runtime sample.ready = Some rt
         /\ spawn_args sp =
              isolation_args sample.ready workdir ++ user_args (sample.host "/app") rt
              ++ flat_map env_flag forwarded
              ++ [image sample.ready; "/bin/bash"; "-lc"; "env"]
         /\ List.NoDup (map fst forwarded)
         /\ (forall k v,
                In (k, v) forwarded <->
                safe_env_name k = true
                /\ expected_env (default [] (config sample.ready ≫= cfg_env))
                     (default [] env) k = Some v)
         /\ In ("WORKSPACE", containerWorkspacePath) forwarded.
Proof.
  intros env. eexists.
  assert (Hsp : executeCommand_spawn (sample.host "/app") sample.ready "env" None env
                  sample.disk = Ok _) by reflexivity.
  split; [exact Hsp|].
  exact (executeCommand_environment (sample.host "/app") sample.ready "env" None env
           sample.disk _ Hsp).
Defined.

(** C7 as stated fails: a call-site value for [WORKSPACE] does not win, the
    container is given [/workspace]. *)
Lemma executeCommand_overrides_WORKSPACE :
  exists sp,
    executeCommand_spawn (sample.host "/app") sample.ready "env" None
      (Some [("WORKSPACE", "/tmp")]) sample.disk = Ok sp
    /\ In "WORKSPACE=/workspace" (spawn_args sp)
    /\ ~ In "WORKSPACE=/tmp" (spawn_args sp).
Proof.
  eexists. split; [reflexivity|]. split.
  - vm_compute. tauto.
  - vm_compute. intros Hin.
    repeat (destruct Hin as [Heq|Hin]; [discriminate Heq|]). exact Hin.
Qed.

Lemma deleteFile_idempotent_witness :
  validatePath (sample.host "/app") sample.ready "/home/u/ws/gone.txt" sample.disk
  = Ok "/home/u/ws/gone.txt"
  /\ existsSync "/home/u/ws/gone.txt" sample.disk = false
  /\ deleteFile (sample.host "/app") sample.ready "/home/u/ws/gone.txt" sample.disk
     = (Ok tt, sample.disk)
  /\ deleteFile (sample.host "/app") sample.ready "/home/u/ws/a.txt"
       (snd (deleteFile (sample.host "/app") sample.ready "/home/u/ws/a.txt" sample.disk))
     = deleteFile (sample.host "/app") sample.ready "/home/u/ws/a.txt" sample.disk.
Proof.
  assert (Hv : validatePath (sample.host "/app") sample.ready "/home/u/ws/gone.txt" sample.disk
               = Ok "/home/u/ws/gone.txt") by (vm_compute; reflexivity).
  assert (Hno : existsSync "/home/u/ws/gone.txt" sample.disk = false)
    by (vm_compute; reflexivity).
  split; [exact Hv|]. split; [exact Hno|]. split.
  - exact (proj1 (deleteFile_idempotent (sample.host "/app") sample.ready
                    "/home/u/ws/gone.txt" sample.disk) _ Hv Hno).
  - exact (proj2 (deleteFile_idempotent (sample.host "/app") sample.ready
                    "/home/u/ws/a.txt" sample.disk)).
Defined.

(** Deleting an existing file removes it; the second call finds nothing. *)
Lemma deleteFile_sample :
  fst (deleteFile (sample.host "/app") sample.ready "/home/u/ws/a.txt" sample.disk) = Ok tt
  /\ existsSync "/home/u/ws/a.txt" sample.disk = true
  /\ existsSync "/home/u/ws/a.txt"
       (snd (deleteFile (sample.host "/app") sample.ready "/home/u/ws/a.txt" sample.disk))
     = false.
Proof. repeat split; vm_compute; reflexivity. Qed.

(** * Further properties of the bridge *)

(** ** What the guard lets through *)

Section guard_results.
Context {S : Type} `{HostFs S}.
Variable h : Host.

Lemma validatePath_ok_inv (br : Bridge) (p v : string) (fs : S) :
  isAbsolute (cwd h) = true ->
  validatePath h br p fs = Ok v ->
  v = path.resolve (cwd h) p
  /\ canonical v
  /\ workspacePath br <> ""
  /\ startsWith v (path.normalize (workspacePath br)) = true
  /\ (existsSync v fs = true ->
      exists real, realpathSync v fs = Some real
                   /\ startsWith real (path.normalize (workspacePath br)) = true).
Proof.
  intros Hcwd Hv.
  assert (Hws : workspacePath br <> "").
  { intros Heq. unfold validatePath in Hv. rewrite Heq in Hv. discriminate Hv. }
  rewrite (validatePath_eval h br p fs Hcwd Hws) in Hv. cbn zeta in Hv.
  pose proof (resolve_canonical (cwd h) p Hcwd) as Hcan.
  set (r := path.resolve (cwd h) p) in *.
  set (root := path.normalize (workspacePath br)) in *.
  destruct (startsWith r root) eqn:Hstart; cbn [negb] in Hv; [|discriminate Hv].
  destruct (existsSync r fs) eqn:Hex.
  - destruct (realpathSync r fs) as [real|] eqn:Hreal; [|discriminate Hv].
    destruct (startsWith real root) eqn:Hrs; cbn [negb] in Hv; [|discriminate Hv].
    injection Hv as <-. repeat split; try assumption. intros _. now exists real.
  - injection Hv as <-. repeat split; try assumption. intros Hex'. congruence.
Qed.

(** X1. Whatever the guard returns is the resolved form of its argument: an
    absolute path in normal form that starts with the normalized workspace
    root and, if it exists, has a real path that starts with it too. *)
Theorem validatePath_sound (br : Bridge) (p v : string) (fs : S) :
  isAbsolute (cwd h) = true ->
  validatePath h br p fs = Ok v ->
  v = path.resolve (cwd h) p
  /\ canonical v
  /\ workspacePath br <> ""
  /\ startsWith v (path.normalize (workspacePath br)) = true
  /\ (existsSync v fs = true ->
      exists real, realpathSync v fs = Some real
                   /\ startsWith real (path.normalize (workspacePath br)) = true).
Proof. apply validatePath_ok_inv. Qed.

(** X2. The guard is idempotent: a path it returned passes it again,
    unchanged. *)
Theorem validatePath_idempotent (br : Bridge) (p v : string) (fs : S) :
  isAbsolute (cwd h) = true ->
  validatePath h br p fs = Ok v ->
  validatePath h br v fs = Ok v.
Proof.
  intros Hcwd Hv.
  destruct (validatePath_ok_inv br p v fs Hcwd Hv) as (Hr & Hcan & _ & _ & _).
  revert Hv. unfold validatePath.
  rewrite (canonical_resolve (cwd h) v Hcan), <- Hr. exact (fun Hv => Hv).
Qed.

(** X3. [fileExists] never fails. It answers [true] exactly when the guard
    accepts the path and the path exists, and then the real path of the
    file has the normalized workspace root as a prefix of its string. *)
Theorem fileExists_answer (br : Bridge) (p : string) (fs : S) :
  isAbsolute (cwd h) = true ->
  exists b,
    fileExists h br p fs = Ok b
    /\ (b = true <-> exists v, validatePath h br p fs = Ok v /\ existsSync v fs = true)
    /\ (b = true ->
        exists real,
          realpathSync (path.resolve (cwd h) p) fs = Some real
          /\ startsWith real (path.normalize (workspacePath br)) = true).
Proof.
  intros Hcwd. unfold fileExists.
  destruct (validatePath h br p fs) as [v|e] eqn:Hv.
  - exists (existsSync v fs). split; [reflexivity|]. split.
    + split; [intros Hex; now exists v | now intros (v' & [= <-] & Hex)].
    + intros Hex.
      destruct (validatePath_ok_inv br p v fs Hcwd Hv) as (Hr & _ & _ & _ & Hreal).
      rewrite <- Hr. now apply Hreal.
  - exists false. split; [reflexivity|]. split.
    + split; [discriminate | now intros (v' & [=] & _)].
    + discriminate.
Qed.

(** X4. [readFile] returns content only of a path the guard accepted: the
    resolved path starts with the workspace root and, when the file is
    seen to exist, so does its real path. *)
Theorem readFile_guarded (br : Bridge) (p content : string) (fs : S) :
  isAbsolute (cwd h) = true ->
  readFile h br p fs = Ok content ->
  let r := path.resolve (cwd h) p in
  validatePath h br p fs = Ok r
  /\ readFileSync r fs = Some content
  /\ startsWith r (path.normalize (workspacePath br)) = true
  /\ (existsSync r fs = true ->
      exists real, realpathSync r fs = Some real
                   /\ startsWith real (path.normalize (workspacePath br)) = true).
Proof.
  intros Hcwd Hread r. unfold readFile in Hread.
  destruct (validatePath h br p fs) as [v|e] eqn:Hv; cbn [mbind result_bind] in Hread;
    [|discriminate Hread].
  destruct (validatePath_ok_inv br p v fs Hcwd Hv) as (Hr & _ & _ & Hstart & Hreal).
  subst r. rewrite <- Hr.
  destruct (readFileSync v fs) as [c|] eqn:Hc; [|discriminate Hread].
  injection Hread as <-. repeat split; assumption.
Qed.

(** X5. When the guard rejects a path, every operation on it fails with the
    guard's error and the filesystem is left as it was; [copyFile] checks
    both paths before it creates or copies anything. *)
Theorem rejected_path_untouched (br : Bridge) (p : string) (fs : S) (e : Error) :
  validatePath h br p fs = Err e ->
  readFile h br p fs = Err e
  /\ listDirectory h br p fs = Err e
  /\ (forall content, writeFile h br p content fs = (Err e, fs))
  /\ deleteFile h br p fs = (Err e, fs)
  /\ createDirectory h br p fs = (Err e, fs)
  /\ (forall dest, copyFile h br p dest fs = (Err e, fs))
  /\ (forall src, is_ok (validatePath h br src fs) = true ->
                  copyFile h br src p fs = (Err e, fs)).
Proof.
  intros Hv.
  unfold readFile, listDirectory, writeFile, deleteFile, createDirectory, copyFile.
  rewrite Hv. cbn [mbind result_bind]. repeat split.
  intros src Hsrc. destruct (validatePath h br src fs); [reflexivity | discriminate Hsrc].
Qed.

End guard_results.

(** ** Host paths and container paths *)

Lemma segments_canonical (l : list string) :
  Forall clean l -> path.segments ("/" +:+ path.join_segs l) = l.
Proof.
  intros Hl. unfold path.segments.
  change (path.split ("/" +:+ path.join_segs l)) with ("" :: path.split (path.join_segs l)).
  rewrite normalize_segs_empty_l.
  destruct l as [|s l]; [reflexivity|].
  rewrite split_join; [|now apply clean_no_slash | discriminate].
  now apply normalize_segs_clean.
Qed.

Lemma strip_common_app (l m : list string) : path.strip_common l (l ++ m) = ([], m).
Proof.
  induction l as [|s l IH]; simpl; [now destruct m|].
  now rewrite String.eqb_refl.
Qed.

Lemma join_segs_nonempty (m : list string) :
  Forall clean m -> m <> [] -> path.join_segs m <> "".
Proof.
  intros Hm Hne Heq.
  destruct (last_char_join m Hm Hne) as (c & Hc & _).
  rewrite Heq in Hc. discriminate Hc.
Qed.

Lemma join_segs_not_dot (m : list string) :
  Forall clean m -> m <> [] -> path.join_segs m <> ".".
Proof.
  intros Hm Hne Heq.
  pose proof (split_join m (clean_no_slash m Hm) Hne) as Hsplit.
  rewrite Heq in Hsplit. cbn in Hsplit. subst m.
  inversion Hm as [|? ? (_ & Hdot & _) _]. now apply Hdot.
Qed.

Section container_paths.
Context {S : Type} `{HostFs S}.
Variable h : Host.

(** X6. Host paths are translated by replacing the workspace root with
    [/workspace]: the root itself becomes [/workspace], and the path made
    of the root's segments followed by the segments [m] becomes
    [/workspace/] followed by [m]. *)
Theorem toContainerPath_below (br : Bridge) (l m : list string) :
  Forall clean l -> Forall clean m ->
  workspacePath br = "/" +:+ path.join_segs l ->
  toContainerPath h br ("/" +:+ path.join_segs (l ++ m)) =
    match m with
    | [] => "/workspace"
    | _ :: _ => "/workspace/" +:+ path.join_segs m
    end.
Proof.
  intros Hl Hm Hws. unfold toContainerPath, path.relative. rewrite Hws.
  destruct m as [|s m].
  { rewrite app_nil_r, String.eqb_refl. reflexivity. }
  assert (Hlm : Forall clean (l ++ s :: m)) by (apply Forall_app; now split).
  assert (Hne : String.eqb ("/" +:+ path.join_segs l) ("/" +:+ path.join_segs (l ++ s :: m))
                = false).
  { apply String.eqb_neq. intros Heq.
    apply (f_equal path.segments) in Heq.
    rewrite (segments_canonical _ Hl), (segments_canonical _ Hlm) in Heq.
    apply (f_equal (@length string)) in Heq. rewrite length_app in Heq. simpl in Heq. lia. }
  rewrite Hne.
  rewrite (canonical_resolve (cwd h) _ (ex_intro _ l (conj Hl eq_refl))).
  rewrite (canonical_resolve (cwd h) _ (ex_intro _ (l ++ s :: m) (conj Hlm eq_refl))).
  rewrite Hne, (segments_canonical _ Hl), (segments_canonical _ Hlm), strip_common_app.
  cbn [map app].
  assert (Hj : path.join_segs (s :: m) <> "") by (apply join_segs_nonempty; [exact Hm | discriminate]).
  assert (Hd : path.join_segs (s :: m) <> ".") by (apply join_segs_not_dot; [exact Hm | discriminate]).
  apply String.eqb_neq in Hj, Hd. rewrite Hj, Hd. cbn [orb].
  rewrite split_join; [|now apply clean_no_slash | discriminate].
  unfold path.join, containerWorkspacePath.
  change (String.eqb "/workspace" "") with false. rewrite Hj.
  assert (Hcan : canonical ("/workspace" +:+ "/" +:+ path.join_segs (s :: m))).
  { exists ("workspace" :: s :: m). split; [|reflexivity].
    constructor; [|exact Hm]. repeat split; discriminate. }
  rewrite (isAbsolute_nonempty _ (canonical_absolute _ Hcan)).
  now rewrite (canonical_normalize _ Hcan).
Qed.

(** X7. A working directory the guard rejects makes [executeCommand] throw
    the guard's error before anything is spawned; one the guard accepts
    becomes the container working directory through the path
    translation; an empty one counts as none. *)
Theorem executeCommand_cwd (br : Bridge) (rt : ContainerRuntime) (command c : string)
    (env : option Env) (fs : S) :
  initialized br = true -> runtime br = Some rt ->
  (forall e events,
      c <> "" -> validatePath h br c fs = Err e ->
      executeCommand h br command (Some c) env fs events = Err e)
  /\ (forall v,
         c <> "" -> validatePath h br c fs = Ok v ->
         exists sp,
           executeCommand_spawn h br command (Some c) env fs = Ok sp
           /\ spawn_args sp =
                isolation_args br (toContainerPath h br v) ++ user_args h rt
                ++ env_args (mergedEnv br env) ++ [image br; "/bin/bash"; "-lc"; command])
  /\ executeCommand_spawn h br command (Some "") env fs
     = executeCommand_spawn h br command None env fs.
Proof.
  intros Hinit Hrt. split; [|split].
  - intros e events Hc Hv. unfold executeCommand, executeCommand_spawn.
    apply String.eqb_neq in Hc. now rewrite Hinit, Hrt, Hc, Hv.
  - intros v Hc Hv. unfold executeCommand_spawn, buildRuntimeArgs.
    apply String.eqb_neq in Hc. rewrite Hinit, Hrt, Hc, Hv. cbn [mbind result_bind].
    eexists. split; reflexivity.
  - unfold executeCommand_spawn. now rewrite Hinit, Hrt.
Qed.

(** X8. Once [initialize] has succeeded, [executeCommand] without a working
    directory spawns the detected runtime with the fixed isolation flags
    (no network, all capabilities dropped, no new privileges, 512
    processes), [/workspace] as working directory, the workspace mounted
    read-write on [/workspace], and the command as the single argument of
    [/bin/bash -lc]. *)
Theorem executeCommand_after_initialize (br0 br : Bridge) (cfg : SandboxConfig)
    (command : string) (env : option Env) (fs fs' : S) :
  initialize h br0 cfg fs = (Ok tt, br) ->
  exists rt,
    runtime br = Some rt
    /\ executeCommand_spawn h br command None env fs' =
         Ok {| spawn_file := runtime_name rt;
               spawn_args :=
                 ["run"; "--rm"; "--network"; "none"; "--cap-drop"; "ALL";
                  "--security-opt"; "no-new-privileges"; "--pids-limit"; "512";
                  "--workdir"; "/workspace";
                  "--volume"; workspacePath br +:+ ":/workspace:rw"]
                 ++ user_args h rt ++ env_args (mergedEnv br env)
                 ++ [image br; "/bin/bash"; "-lc"; command];
               spawn_timeoutMs := timeoutMs br |}.
Proof.
  intros Hinit.
  apply initialize_success in Hinit as (Hi & [rt Hrt] & _).
  exists rt. split; [exact Hrt|].
  unfold executeCommand_spawn, buildRuntimeArgs. rewrite Hi, Hrt. cbn [mbind result_bind].
  unfold toContainerPath, path.relative. rewrite String.eqb_refl. reflexivity.
Qed.

End container_paths.

(** ** Initialization *)

Lemma or_string_self (s : string) : or_string (Some s) s = s.
Proof. unfold or_string. now destruct (String.eqb_spec s ""). Qed.

Lemma status_of_runtime (h : Host) (rt : ContainerRuntime) (version : option string) :
  platform h = "linux" ->
  detectRuntime h = Some (rt, version) ->
  checkLinuxContainerStatus h =
    {| available := detectRootless h rt; status_runtime := Some rt;
       status_rootless := Some (detectRootless h rt); status_version := version;
       status_image := Some (DEFAULT_CONTAINER_IMAGE h);
       status_imageAvailable :=
         Some (checkImageAvailable h rt (DEFAULT_CONTAINER_IMAGE h)) |}.
Proof.
  intros Hlinux Hrt. unfold checkLinuxContainerStatus.
  now rewrite Hlinux, String.eqb_refl, Hrt.
Qed.

Lemma status_without_runtime (h : Host) :
  platform h <> "linux" \/ detectRuntime h = None ->
  status_runtime (checkLinuxContainerStatus h) = None
  /\ available (checkLinuxContainerStatus h) = false.
Proof.
  unfold checkLinuxContainerStatus.
  destruct (String.eqb_spec (platform h) "linux") as [Hl|Hl]; cbn [negb].
  - intros [Hne| ->]; [contradiction | now split].
  - now split.
Qed.

Lemma detectRuntime_podman (h : Host) :
  commandExists h "podman" = true ->
  detectRuntime h = Some (podman, getBinaryVersion h "podman").
Proof. intros Hp. unfold detectRuntime. now rewrite Hp. Qed.

(** X9. [detectRuntime] looks for docker only when podman is missing, so
    the status reports availability for podman whenever podman is
    installed: the sandbox is available exactly when, on Linux, the first
    runtime found runs rootless; the image need not be present. *)
Theorem checkLinuxContainerStatus_available (h : Host) :
  (commandExists h "podman" = true ->
   detectRuntime h = Some (podman, getBinaryVersion h "podman"))
  /\ (commandExists h "podman" = false -> commandExists h "docker" = true ->
      detectRuntime h = Some (docker, getBinaryVersion h "docker"))
  /\ (detectRuntime h = None <->
      commandExists h "podman" = false /\ commandExists h "docker" = false)
  /\ (available (checkLinuxContainerStatus h) = true <->
      platform h = "linux"
      /\ exists rt version, detectRuntime h = Some (rt, version)
                            /\ detectRootless h rt = true).
Proof.
  split; [|split; [|split]].
  - intros Hp. unfold detectRuntime. now rewrite Hp.
  - intros Hp Hd. unfold detectRuntime. now rewrite Hp, Hd.
  - unfold detectRuntime.
    destruct (commandExists h "podman"), (commandExists h "docker"); split;
      try discriminate; try tauto; now intros [? ?].
  - split.
    + intros Hav.
      destruct (String.eqb_spec (platform h) "linux") as [Hl|Hl].
      * destruct (detectRuntime h) as [[rt version]|] eqn:Hrt.
        -- rewrite (status_of_runtime h rt version Hl Hrt) in Hav. cbn in Hav.
           split; [exact Hl|]. now exists rt, version.
        -- destruct (status_without_runtime h (or_intror Hrt)) as [_ Hno]. congruence.
      * destruct (status_without_runtime h (or_introl Hl)) as [_ Hno]. congruence.
    + intros (Hl & rt & version & Hrt & Hroot).
      now rewrite (status_of_runtime h rt version Hl Hrt).
Qed.

Section initialization.
Context {S : Type} `{HostFs S}.
Variable h : Host.

Lemma initialize_ok_iff (br br' : Bridge) (cfg : SandboxConfig) (fs : S) :
  initialize h br cfg fs = (Ok tt, br') <->
  platform h = "linux"
  /\ existsSync (path.resolve (cwd h) (cfg_workspacePath cfg)) fs = true
  /\ exists rt version,
       detectRuntime h = Some (rt, version)
       /\ detectRootless h rt = true
       /\ ensureImage h rt (DEFAULT_CONTAINER_IMAGE h) = true
       /\ br' = {| config := Some cfg;
                   workspacePath := path.resolve (cwd h) (cfg_workspacePath cfg);
                   initialized := true; runtime := Some rt;
                   image := DEFAULT_CONTAINER_IMAGE h |}.
Proof.
  unfold initialize.
  destruct (String.eqb_spec (platform h) "linux") as [Hl|Hl]; cbn [negb].
  2:{ split; [intros [=] | now intros [? _]]. }
  destruct (existsSync _ fs) eqn:Hex; cbn [negb].
  2:{ split; [intros [=] | now intros (_ & [=] & _)]. }
  destruct (detectRuntime h) as [[rt version]|] eqn:Hrt.
  2:{ destruct (status_without_runtime h (or_intror Hrt)) as [-> _].
      split; [intros [=] | now intros (_ & _ & ? & ? & [=] & _)]. }
  rewrite (status_of_runtime h rt version Hl Hrt).
  cbn [status_runtime status_rootless status_image default from_option id].
  rewrite or_string_self.
  destruct (detectRootless h rt) eqn:Hroot; cbn [negb].
  2:{ split; [intros [=]|]. intros (_ & _ & rt' & v' & [= <- <-] & Hr & _). congruence. }
  destruct (ensureImage h rt (DEFAULT_CONTAINER_IMAGE h)) eqn:Himg; cbn [negb].
  2:{ split; [intros [=]|]. intros (_ & _ & rt' & v' & [= <- <-] & _ & Hi & _). congruence. }
  split.
  - intros [= <-]. split; [exact Hl|]. split; [reflexivity|].
    exists rt, version. repeat split; assumption.
  - intros (_ & _ & rt' & v' & [= <- <-] & _ & _ & ->). reflexivity.
Qed.

(** X10. [initialize] succeeds exactly when the host is Linux, the resolved
    workspace exists, a runtime is found, that runtime is rootless, and the
    default image is present or can be pulled. The bridge is then ready on
    the resolved workspace with that runtime and image, whatever it held
    before. *)
Theorem initialize_succeeds_iff (br br' : Bridge) (cfg : SandboxConfig) (fs : S) :
  initialize h br cfg fs = (Ok tt, br') <->
  platform h = "linux"
  /\ existsSync (path.resolve (cwd h) (cfg_workspacePath cfg)) fs = true
  /\ exists rt version,
       detectRuntime h = Some (rt, version)
       /\ detectRootless h rt = true
       /\ ensureImage h rt (DEFAULT_CONTAINER_IMAGE h) = true
       /\ br' = {| config := Some cfg;
                   workspacePath := path.resolve (cwd h) (cfg_workspacePath cfg);
                   initialized := true; runtime := Some rt;
                   image := DEFAULT_CONTAINER_IMAGE h |}.
Proof. apply initialize_ok_iff. Qed.

Lemma initialize_errors (br : Bridge) (cfg : SandboxConfig) (fs : S) :
  let ws := path.resolve (cwd h) (cfg_workspacePath cfg) in
  (platform h <> "linux" -> fst (initialize h br cfg fs) = Err OnlyLinux)
  /\ (platform h = "linux" -> existsSync ws fs = false ->
      fst (initialize h br cfg fs) = Err (WorkspaceMissing ws))
  /\ (platform h = "linux" -> existsSync ws fs = true -> detectRuntime h = None ->
      fst (initialize h br cfg fs) = Err NoRuntime)
  /\ (forall rt version,
         platform h = "linux" -> existsSync ws fs = true ->
         detectRuntime h = Some (rt, version) -> detectRootless h rt = false ->
         fst (initialize h br cfg fs) = Err (NotRootless rt))
  /\ (forall rt version,
         platform h = "linux" -> existsSync ws fs = true ->
         detectRuntime h = Some (rt, version) -> detectRootless h rt = true ->
         ensureImage h rt (DEFAULT_CONTAINER_IMAGE h) = false ->
         fst (initialize h br cfg fs) = Err (ImageFailed (DEFAULT_CONTAINER_IMAGE h))).
Proof.
  intros ws. unfold initialize. fold ws. repeat split.
  - intros Hl. apply String.eqb_neq in Hl. now rewrite Hl.
  - intros Hl Hex. now rewrite Hl, String.eqb_refl, Hex.
  - intros Hl Hex Hrt. rewrite Hl, String.eqb_refl, Hex. cbn [negb].
    now destruct (status_without_runtime h (or_intror Hrt)) as [-> _].
  - intros rt version Hl Hex Hrt Hroot. rewrite Hex.
    rewrite (status_of_runtime h rt version Hl Hrt), Hl, String.eqb_refl.
    cbn [negb status_runtime status_rootless default from_option id]. now rewrite Hroot.
  - intros rt version Hl Hex Hrt Hroot Himg. rewrite Hex.
    rewrite (status_of_runtime h rt version Hl Hrt), Hl, String.eqb_refl.
    cbn [negb status_runtime status_rootless status_image default from_option id].
    now rewrite Hroot, or_string_self, Himg.
Qed.

(** X11. The checks of [initialize] run in a fixed order and the first one
    that fails decides the error: platform, workspace, runtime, rootless
    mode, image. A missing workspace is reported even on a host without
    any runtime. *)
Theorem initialize_first_failure (br : Bridge) (cfg : SandboxConfig) (fs : S) :
  let ws := path.resolve (cwd h) (cfg_workspacePath cfg) in
  (platform h <> "linux" -> fst (initialize h br cfg fs) = Err OnlyLinux)
  /\ (platform h = "linux" -> existsSync ws fs = false ->
      fst (initialize h br cfg fs) = Err (WorkspaceMissing ws))
  /\ (platform h = "linux" -> existsSync ws fs = true -> detectRuntime h = None ->
      fst (initialize h br cfg fs) = Err NoRuntime)
  /\ (forall rt version,
         platform h = "linux" -> existsSync ws fs = true ->
         detectRuntime h = Some (rt, version) -> detectRootless h rt = false ->
         fst (initialize h br cfg fs) = Err (NotRootless rt))
  /\ (forall rt version,
         platform h = "linux" -> existsSync ws fs = true ->
         detectRuntime h = Some (rt, version) -> detectRootless h rt = true ->
         ensureImage h rt (DEFAULT_CONTAINER_IMAGE h) = false ->
         fst (initialize h br cfg fs) = Err (ImageFailed (DEFAULT_CONTAINER_IMAGE h))).
Proof. apply initialize_errors. Qed.

(** X12. A rootful podman hides a rootless docker: with podman installed
    and not rootless, [initialize] on an existing workspace fails with the
    not-rootless error for podman, whatever docker is or does. *)
Theorem initialize_podman_shadows_docker (br : Bridge) (cfg : SandboxConfig) (fs : S) :
  platform h = "linux" ->
  existsSync (path.resolve (cwd h) (cfg_workspacePath cfg)) fs = true ->
  commandExists h "podman" = true ->
  detectRootless h podman = false ->
  fst (initialize h br cfg fs) = Err (NotRootless podman).
Proof.
  intros Hl Hex Hp Hroot.
  destruct (initialize_errors br cfg fs) as (_ & _ & _ & Hnr & _).
  exact (Hnr podman _ Hl Hex (detectRuntime_podman h Hp) Hroot).
Qed.

(** X13. A successful [initialize] does not depend on what the bridge held
    before: it gives the same ready bridge from any starting state, in
    particular when repeated on its own result or run after [shutdown]. *)
Theorem initialize_overwrites (br1 br2 br : Bridge) (cfg : SandboxConfig) (fs : S) :
  initialize h br1 cfg fs = (Ok tt, br) ->
  initialize h br2 cfg fs = (Ok tt, br)
  /\ initialize h br cfg fs = (Ok tt, br)
  /\ initialize h (shutdown br) cfg fs = (Ok tt, br).
Proof.
  intros Hinit. apply initialize_ok_iff in Hinit.
  repeat split; now apply initialize_ok_iff.
Qed.

End initialization.

(** ** The promise of [executeCommand] *)

Lemma timer_before_settle_unsettled (events : list ChildEvent) :
  unsettled events = true -> timer_before_settle events = existsb is_timer events.
Proof.
  induction events as [|ev events IH]; [reflexivity|].
  change (unsettled (ev :: events)) with (negb (is_settling ev) && unsettled events).
  intros Hu. apply andb_prop in Hu as [Hev Hu].
  destruct ev; simpl in *; try discriminate; auto.
Qed.

Lemma timer_before_settle_split (pre post : list ChildEvent) (ev : ChildEvent) :
  unsettled pre = true -> is_settling ev = true ->
  timer_before_settle (pre ++ ev :: post) = existsb is_timer pre.
Proof.
  intros Hpre Hev. induction pre as [|e pre IH].
  - destruct ev; try discriminate; reflexivity.
  - change (unsettled (e :: pre)) with (negb (is_settling e) && unsettled pre) in Hpre.
    apply andb_prop in Hpre as [He Hpre].
    destruct e; simpl in *; try discriminate; auto.
Qed.

Section promise.
Context {S : Type} `{HostFs S}.
Variable h : Host.

(** X14. The call returns only at the child's [close] or [error] event:
    while neither has arrived the promise is pending, also after the timer
    has fired and the kill signal has been sent. *)
Theorem executeCommand_pending (br : Bridge) (command : string) (cwd : option string)
    (env : option Env) (fs : S) (sp : Spawn) (events : list ChildEvent) :
  executeCommand_spawn h br command cwd env fs = Ok sp ->
  unsettled events = true ->
  exists run,
    executeCommand h br command cwd env fs events = Ok run
    /\ resolved run = None
    /\ killed run = if existsb is_timer events then ["SIGKILL"] else [].
Proof.
  intros Hsp Hu. exists (run_child (spawn_timeoutMs sp) events).
  unfold executeCommand. rewrite Hsp. cbn [mbind result_bind].
  rewrite (run_child_unsettled _ _ Hu). repeat split.
Qed.

(** X15. The first [error] or [close] decides the result: whatever the
    child delivers afterwards changes neither the value returned nor the
    signals sent. *)
Theorem executeCommand_settles_once (br : Bridge) (command : string) (cwd : option string)
    (env : option Env) (fs : S) (sp : Spawn)
    (pre post : list ChildEvent) (ev : ChildEvent) :
  executeCommand_spawn h br command cwd env fs = Ok sp ->
  unsettled pre = true -> is_settling ev = true ->
  exists run run1 r,
    executeCommand h br command cwd env fs (pre ++ ev :: post) = Ok run
    /\ executeCommand h br command cwd env fs (pre ++ [ev]) = Ok run1
    /\ resolved run = Some r
    /\ resolved run1 = Some r
    /\ killed run = killed run1.
Proof.
  intros Hsp Hpre Hev.
  exists (run_child (spawn_timeoutMs sp) (pre ++ ev :: post)),
    (run_child (spawn_timeoutMs sp) (pre ++ [ev])),
    (settled_with (spawn_timeoutMs sp) pre ev).
  unfold executeCommand. rewrite Hsp. cbn [mbind result_bind].
  destruct (run_child_settles (spawn_timeoutMs sp) pre post ev Hpre Hev) as [Hr Hk].
  destruct (run_child_settles (spawn_timeoutMs sp) pre [] ev Hpre Hev) as [Hr1 Hk1].
  rewrite Hr, Hr1, Hk, Hk1. repeat split.
Qed.

(** X16. The child is killed at most once, with SIGKILL, and exactly when the
    timer fires before the first [error] or [close]; a timer that comes
    due after the promise was settled sends nothing. *)
Theorem executeCommand_kills_once (br : Bridge) (command : string) (cwd : option string)
    (env : option Env) (fs : S) (events : list ChildEvent) (run : Run) :
  executeCommand h br command cwd env fs events = Ok run ->
  killed run = if timer_before_settle events then ["SIGKILL"] else [].
Proof.
  intros Hexec. apply executeCommand_inv in Hexec as (sp & _ & ->).
  destruct (first_settling events) as [Hu | (pre & ev & post & -> & Hpre & Hev)].
  - now rewrite (run_child_unsettled _ _ Hu), (timer_before_settle_unsettled _ Hu).
  - destruct (run_child_settles (spawn_timeoutMs sp) pre post ev Hpre Hev) as [_ Hk].
    now rewrite Hk, (timer_before_settle_split _ _ _ Hpre Hev).
Qed.

(** X17. When the child's [error] event comes first, the call returns
    (does not throw) a failure with exit code 1, the output collected so
    far, and the error message on a new line after the collected error
    output, trimmed; this holds also when the timer had fired before. *)
Theorem executeCommand_child_error (br : Bridge) (command : string) (cwd : option string)
    (env : option Env) (fs : S) (sp : Spawn)
    (pre post : list ChildEvent) (msg : string) :
  executeCommand_spawn h br command cwd env fs = Ok sp ->
  unsettled pre = true ->
  exists run,
    executeCommand h br command cwd env fs (pre ++ ChildError msg :: post) = Ok run
    /\ resolved run =
         Some {| success := false;
                 stdout := join_all (map toString (stdout_chunks pre));
                 stderr := trim (join_all (map toString (stderr_chunks pre))
                                 +:+ newline +:+ msg);
                 exitCode := Some 1%Z |}.
Proof.
  intros Hsp Hpre.
  exists (run_child (spawn_timeoutMs sp) (pre ++ ChildError msg :: post)).
  unfold executeCommand. rewrite Hsp. cbn [mbind result_bind].
  destruct (run_child_settles (spawn_timeoutMs sp) pre post (ChildError msg) Hpre eq_refl)
    as [Hr _].
  now rewrite Hr.
Qed.

(** X18. The timeout in force is never zero: it is the configured timeout
    when there is one other than 0, and 60000 ms otherwise. *)
Theorem executeCommand_timeout_in_force (br : Bridge) (command : string)
    (cwd : option string) (env : option Env) (fs : S) (sp : Spawn) :
  executeCommand_spawn h br command cwd env fs = Ok sp ->
  spawn_timeoutMs sp <> 0%Z
  /\ (forall t, config br ≫= cfg_timeout = Some t -> t <> 0%Z -> spawn_timeoutMs sp = t)
  /\ (config br ≫= cfg_timeout = Some 0%Z \/ config br ≫= cfg_timeout = None ->
      spawn_timeoutMs sp = 60000%Z).
Proof.
  intros Hsp. rewrite (spawn_timeout h _ _ _ _ _ _ Hsp). unfold timeoutMs.
  destruct (config br ≫= cfg_timeout) as [t|].
  - destruct (Z.eqb_spec t 0) as [->|Hne].
    + repeat split; [discriminate | intros t [= <-] Hne; congruence].
    + repeat split; [exact Hne | now intros t' [= <-] |].
      intros [[= ->]|[=]]. congruence.
  - repeat split; [discriminate | discriminate].
Qed.

End promise.

(** ** Arguments, listings, deletion, shutdown *)

Lemma safe_name_no_dash (k rest : string) :
  safe_env_name k = true -> startsWith (k +:+ rest) "-" = false.
Proof.
  destruct k as [|c k]; [discriminate|]. cbn [safe_env_name]. intros Hs.
  apply andb_prop in Hs as [Hc _].
  unfold startsWith. cbn [String.append String.prefix].
  destruct (ascii_dec "-" c) as [<-|Hne]; [discriminate Hc | reflexivity].
Qed.

(** X19. No environment entry can pass for an option of the runtime: every
    argument built from the environment is either the flag [--env] or a
    [NAME=value] whose name matches the identifier pattern, so it does not
    start with a dash. *)
Theorem env_args_no_option (merged : Env) (a : string) :
  In a (env_args merged) ->
  a = "--env"
  \/ exists k v, In (k, v) merged /\ safe_env_name k = true
                 /\ a = k +:+ "=" +:+ v /\ startsWith a "-" = false.
Proof.
  unfold env_args. intros Hin. apply in_flat_map in Hin as ([k v] & Hkv & Ha).
  cbn [fst snd] in Ha. destruct (safe_env_name k) eqn:Hs; [|destruct Ha].
  destruct Ha as [<-|[<-|[]]]; [now left | right].
  exists k, v. repeat split; try assumption. now apply safe_name_no_dash.
Qed.

Section listing.
Context {S : Type} `{HostFs S}.
Variable h : Host.

(** X20. [listDirectory] returns one entry per directory entry read, in the
    same order, with its name and directory flag; the size is that of
    [stat] for a regular file and absent for anything else. *)
Theorem listDirectory_entries (br : Bridge) (p : string) (fs : S)
    (entries : list DirectoryEntry) :
  listDirectory h br p fs = Ok entries ->
  exists v dirents,
    validatePath h br p fs = Ok v
    /\ readdirSync v fs = Some dirents
    /\ Forall2 (fun d e =>
                  entry_name e = dirent_name d
                  /\ entry_isDirectory e = dirent_isDirectory d
                  /\ (dirent_isFile d = true ->
                      is_Some (entry_size e)
                      /\ entry_size e = statSync_size (path.join v (dirent_name d)) fs)
                  /\ (dirent_isFile d = false -> entry_size e = None))
         dirents entries.
Proof.
  unfold listDirectory.
  destruct (validatePath h br p fs) as [v|e]; cbn [mbind result_bind]; [|discriminate].
  destruct (readdirSync v fs) as [dirents|] eqn:Hread; [|discriminate].
  intros Hlist. exists v, dirents. split; [reflexivity|]. split; [exact Hread|].
  clear Hread. revert entries Hlist.
  induction dirents as [|d dirents IH]; intros entries.
  - intros [= <-]. constructor.
  - cbn [list_entries].
    destruct (dirent_isFile d) eqn:Hfile.
    + destruct (statSync_size (path.join v (dirent_name d)) fs) as [n|] eqn:Hstat;
        cbn [mbind result_bind]; [|discriminate].
      destruct (list_entries v dirents fs) as [tail|e]; cbn [mbind result_bind];
        [|discriminate].
      intros [= <-]. constructor; [|now apply IH].
      cbn. split; [reflexivity|]. split; [reflexivity|]. split; [|congruence].
      intros _. split; [eauto | now rewrite Hstat].
    + cbn [mbind result_bind].
      destruct (list_entries v dirents fs) as [tail|e]; cbn [mbind result_bind];
        [|discriminate].
      intros [= <-]. constructor; [|now apply IH].
      cbn. split; [reflexivity|]. split; [reflexivity|]. split; [congruence | reflexivity].
Qed.

(** X21. [shutdown] is idempotent and clears everything but the workspace
    path and the image, so the guard and every file operation behave
    after it exactly as before it. *)
Theorem shutdown_keeps_file_operations (br : Bridge) (fs : S) :
  shutdown (shutdown br) = shutdown br
  /\ (forall p, validatePath h (shutdown br) p fs = validatePath h br p fs)
  /\ (forall p, readFile h (shutdown br) p fs = readFile h br p fs)
  /\ (forall p content,
         writeFile h (shutdown br) p content fs = writeFile h br p content fs)
  /\ (forall p, listDirectory h (shutdown br) p fs = listDirectory h br p fs)
  /\ (forall p, fileExists h (shutdown br) p fs = fileExists h br p fs)
  /\ (forall p, deleteFile h (shutdown br) p fs = deleteFile h br p fs)
  /\ (forall p, createDirectory h (shutdown br) p fs = createDirectory h br p fs)
  /\ (forall src dest, copyFile h (shutdown br) src dest fs = copyFile h br src dest fs).
Proof. repeat split. Qed.

End listing.

Section deleted.
Context {S : Type} `{HostFsLaws S}.
Variable h : Host.

(** A path the guard accepted is accepted again once it is gone. *)
Lemma validatePath_after_gone (br : Bridge) (p v : string) (fs fs' : S) :
  validatePath h br p fs = Ok v -> existsSync v fs' = false ->
  validatePath h br p fs' = Ok v.
Proof.
  unfold validatePath.
  destruct (String.eqb (workspacePath br) ""); [discriminate|].
  destruct (negb (startsWith _ _)); [discriminate|].
  intros Hv Hgone.
  assert (Hr : v = path.resolve (cwd h) p).
  { destruct (existsSync (path.resolve (cwd h) p) fs); [|congruence].
    destruct (realpathSync (path.resolve (cwd h) p) fs) as [real|]; [|discriminate Hv].
    destruct (negb (startsWith real _)); congruence. }
  rewrite <- Hr, Hgone. reflexivity.
Qed.

(** X22. A successful [deleteFile] changes the filesystem by at most one
    [unlink], of the path the guard returned, and afterwards [fileExists]
    on the same path answers [false]. *)
Theorem deleteFile_then_fileExists (br : Bridge) (p : string) (fs fs' : S) :
  deleteFile h br p fs = (Ok tt, fs') ->
  (exists v, validatePath h br p fs = Ok v
             /\ (fs' = fs \/ unlinkSync v fs = Some fs'))
  /\ fileExists h br p fs' = Ok false.
Proof.
  unfold deleteFile.
  destruct (validatePath h br p fs) as [v|e] eqn:Hv; [|discriminate].
  destruct (existsSync v fs) eqn:Hex.
  - destruct (unlinkSync v fs) as [fs1|] eqn:Hun; [|discriminate].
    intros [= <-]. split; [exists v; auto|].
    pose proof (unlink_gone _ _ _ Hun) as Hgone.
    unfold fileExists. now rewrite (validatePath_after_gone br p v fs fs1 Hv Hgone), Hgone.
  - intros [= <-]. split; [exists v; auto|].
    unfold fileExists. now rewrite Hv, Hex.
Qed.

End deleted.

(** ** The further properties on sample runs *)

Lemma validatePath_sound_witness :
  isAbsolute (cwd (sample.host "/app")) = true
  /\ validatePath (sample.host "/app") sample.ready "/home/u/ws/./a.txt" sample.disk
     = Ok "/home/u/ws/a.txt"
  /\ "/home/u/ws/a.txt" = path.resolve (cwd (sample.host "/app")) "/home/u/ws/./a.txt"
  /\ startsWith "/home/u/ws/a.txt" (path.normalize (workspacePath sample.ready)) = true.
Proof.
  assert (Hv : validatePath (sample.host "/app") sample.ready "/home/u/ws/./a.txt" sample.disk
               = Ok "/home/u/ws/a.txt") by (vm_compute; reflexivity).
  destruct (validatePath_sound (sample.host "/app") sample.ready _ _ sample.disk eq_refl Hv)
    as (Hr & _ & _ & Hs & _).
  repeat split; assumption.
Defined.

Lemma validatePath_idempotent_witness :
  isAbsolute (cwd (sample.host "/app")) = true
  /\ validatePath (sample.host "/app") sample.ready "/home/u/ws/x/../a.txt" sample.disk
     = Ok "/home/u/ws/a.txt"
  /\ validatePath (sample.host "/app") sample.ready "/home/u/ws/a.txt" sample.disk
     = Ok "/home/u/ws/a.txt".
Proof.
  assert (Hv : validatePath (sample.host "/app") sample.ready "/home/u/ws/x/../a.txt"
                 sample.disk = Ok "/home/u/ws/a.txt") by (vm_compute; reflexivity).
  split; [reflexivity|]. split; [exact Hv|].
  exact (validatePath_idempotent (sample.host "/app") sample.ready _ _ sample.disk eq_refl Hv).
Defined.

Lemma fileExists_answer_witness :
  isAbsolute (cwd (sample.host "/app")) = true
  /\ fileExists (sample.host "/app") sample.ready "/home/u/ws/a.txt" sample.disk = Ok true
  /\ (exists v,
        validatePath (sample.host "/app") sample.ready "/home/u/ws/a.txt" sample.disk = Ok v
        /\ existsSync v sample.disk = true)
  /\ (exists real,
        realpathSync (path.resolve (cwd (sample.host "/app")) "/home/u/ws/a.txt")
          sample.disk = Some real
        /\ startsWith real (path.normalize (workspacePath sample.ready)) = true).
Proof.
  assert (Hex : fileExists (sample.host "/app") sample.ready "/home/u/ws/a.txt" sample.disk
                = Ok true) by (vm_compute; reflexivity).
  split; [reflexivity|]. split; [exact Hex|].
  destruct (fileExists_answer (sample.host "/app") sample.ready "/home/u/ws/a.txt"
              sample.disk eq_refl) as (b & Hb & Hiff & Hreal).
  rewrite Hex in Hb. injection Hb as <-.
  split; [exact (proj1 Hiff eq_refl) | exact (Hreal eq_refl)].
Defined.

Lemma readFile_guarded_witness :
  isAbsolute (cwd (sample.host "/app")) = true
  /\ readFile (sample.host "/app") sample.ready "/home/u/ws/a.txt" sample.disk = Ok "hello"
  /\ validatePath (sample.host "/app") sample.ready "/home/u/ws/a.txt" sample.disk
     = Ok (path.resolve (cwd (sample.host "/app")) "/home/u/ws/a.txt").
Proof.
  assert (Hread : readFile (sample.host "/app") sample.ready "/home/u/ws/a.txt" sample.disk
                  = Ok "hello") by (vm_compute; reflexivity).
  split; [reflexivity|]. split; [exact Hread|].
  exact (proj1 (readFile_guarded (sample.host "/app") sample.ready _ _ sample.disk
                  eq_refl Hread)).
Defined.

Lemma rejected_path_untouched_witness :
  validatePath (sample.host "/app") sample.ready "/etc/passwd" sample.disk
  = Err (OutsideWorkspace "/etc/passwd")
  /\ deleteFile (sample.host "/app") sample.ready "/etc/passwd" sample.disk
     = (Err (OutsideWorkspace "/etc/passwd"), sample.disk)
  /\ (forall content,
         writeFile (sample.host "/app") sample.ready "/etc/passwd" content sample.disk
         = (Err (OutsideWorkspace "/etc/passwd"), sample.disk)).
Proof.
  assert (Hv : validatePath (sample.host "/app") sample.ready "/etc/passwd" sample.disk
               = Err (OutsideWorkspace "/etc/passwd")) by (vm_compute; reflexivity).
  destruct (rejected_path_untouched (sample.host "/app") sample.ready _ sample.disk _ Hv)
    as (_ & _ & Hw & Hd & _).
  repeat split; assumption.
Defined.

Lemma toContainerPath_below_witness :
  Forall clean ["home"; "u"; "ws"]
  /\ Forall clean ["src"; "main.ts"]
  /\ workspacePath sample.ready = "/" +:+ path.join_segs ["home"; "u"; "ws"]
  /\ toContainerPath (sample.host "/app") sample.ready
       ("/" +:+ path.join_segs (["home"; "u"; "ws"] ++ ["src"; "main.ts"]))
     = "/workspace/" +:+ path.join_segs ["src"; "main.ts"].
Proof.
  assert (Hl : Forall clean ["home"; "u"; "ws"])
    by (repeat constructor; discriminate).
  assert (Hm : Forall clean ["src"; "main.ts"])
    by (repeat constructor; discriminate).
  split; [exact Hl|]. split; [exact Hm|]. split; [reflexivity|].
  exact (toContainerPath_below (sample.host "/app") sample.ready _ _ Hl Hm eq_refl).
Defined.

Lemma executeCommand_cwd_witness :
  initialized sample.ready = true
  /\ runtime sample.ready = Some podman
  /\ "/etc" <> ""
  /\ validatePath (sample.host "/app") sample.ready "/etc" sample.disk
     = Err (OutsideWorkspace "/etc")
  /\ executeCommand (sample.host "/app") sample.ready "ls" (Some "/etc") None sample.disk
       [StdoutData "never"] = Err (OutsideWorkspace "/etc").
Proof.
  assert (Hne : "/etc" <> "") by discriminate.
  assert (Hv : validatePath (sample.host "/app") sample.ready "/etc" sample.disk
               = Err (OutsideWorkspace "/etc")) by (vm_compute; reflexivity).
  split; [reflexivity|]. split; [reflexivity|]. split; [exact Hne|]. split; [exact Hv|].
  exact (proj1 (executeCommand_cwd (sample.host "/app") sample.ready podman "ls" "/etc" None
                  sample.disk eq_refl eq_refl) _ _ Hne Hv).
Defined.

Lemma executeCommand_after_initialize_witness :
  initialize (sample.host "/app") (new_bridge (sample.host "/app")) (sample.cfg "/home/u/ws")
    sample.disk = (Ok tt, sample.ready)
  /\ exists rt sp,
       runtime sample.ready = Some rt
       /\ executeCommand_spawn (sample.host "/app") sample.ready "echo sandbox-ok" None None
            sample.disk = Ok sp
       /\ spawn_file sp = runtime_name rt.
Proof.
  assert (Hinit : initialize (sample.host "/app") (new_bridge (sample.host "/app"))
                    (sample.cfg "/home/u/ws") sample.disk = (Ok tt, sample.ready))
    by (vm_compute; reflexivity).
  split; [exact Hinit|].
  destruct (executeCommand_after_initialize (sample.host "/app") _ _ _ "echo sandbox-ok" None
              sample.disk sample.disk Hinit) as (rt & Hrt & Hsp).
  exists rt. eexists. split; [exact Hrt|]. split; [exact Hsp | reflexivity].
Defined.

Lemma initialize_podman_shadows_docker_witness :
  platform (rootful_podman_host "/app") = "linux"
  /\ existsSync (path.resolve (cwd (rootful_podman_host "/app"))
                   (cfg_workspacePath (sample.cfg "/home/u/ws"))) sample.disk = true
  /\ commandExists (rootful_podman_host "/app") "podman" = true
  /\ commandExists (rootful_podman_host "/app") "docker" = true
  /\ detectRootless (rootful_podman_host "/app") podman = false
  /\ detectRootless (rootful_podman_host "/app") docker = true
  /\ fst (initialize (rootful_podman_host "/app") (new_bridge (rootful_podman_host "/app"))
            (sample.cfg "/home/u/ws") sample.disk) = Err (NotRootless podman).
Proof.
  assert (Hex : existsSync (path.resolve (cwd (rootful_podman_host "/app"))
                              (cfg_workspacePath (sample.cfg "/home/u/ws"))) sample.disk
                = true) by (vm_compute; reflexivity).
  split; [reflexivity|]. split; [exact Hex|]. do 4 (split; [reflexivity|]).
  exact (initialize_podman_shadows_docker (rootful_podman_host "/app") _ _ sample.disk
           eq_refl Hex eq_refl eq_refl).
Defined.

Lemma initialize_overwrites_witness :
  initialize (sample.host "/app") (new_bridge (sample.host "/app")) (sample.cfg "/home/u/ws")
    sample.disk = (Ok tt, sample.ready)
  /\ initialize (sample.host "/app") (shutdown sample.ready) (sample.cfg "/home/u/ws")
       sample.disk = (Ok tt, sample.ready).
Proof.
  assert (Hinit : initialize (sample.host "/app") (new_bridge (sample.host "/app"))
                    (sample.cfg "/home/u/ws") sample.disk = (Ok tt, sample.ready))
    by (vm_compute; reflexivity).
  split; [exact Hinit|].
  destruct (initialize_overwrites (sample.host "/app") _ (new_bridge (sample.host "/app")) _ _
              sample.disk Hinit) as (_ & _ & Hshut).
  exact Hshut.
Defined.

Lemma executeCommand_pending_witness :
  let events := [StdoutData "working"; TimerFired; StderrData "still here"] in
  exists sp,
    executeCommand_spawn (sample.host "/app") sample.ready "sleep 30" None None sample.disk
    = Ok sp
    /\ unsettled events = true
    /\ exists run,
         executeCommand (sample.host "/app") sample.ready "sleep 30" None None sample.disk
           events = Ok run
         /\ resolved run = None
         /\ killed run = ["SIGKILL"].
Proof.
  intros events. eexists.
  assert (Hsp : executeCommand_spawn (sample.host "/app") sample.ready "sleep 30" None None
                  sample.disk = Ok _) by reflexivity.
  split; [exact Hsp|]. split; [reflexivity|].
  exact (executeCommand_pending (sample.host "/app") sample.ready "sleep 30" None None
           sample.disk _ events Hsp eq_refl).
Defined.

Lemma executeCommand_settles_once_witness :
  let pre := [StdoutData "done"] in
  let post := [StdoutData "late"; TimerFired; ChildError "late error"; Close None] in
  exists sp,
    executeCommand_spawn (sample.host "/app") sample.ready "true" None None sample.disk = Ok sp
    /\ unsettled pre = true
    /\ is_settling (Close (Some 0%Z)) = true
    /\ exists run run1 r,
         executeCommand (sample.host "/app") sample.ready "true" None None sample.disk
           (pre ++ Close (Some 0%Z) :: post) = Ok run
         /\ executeCommand (sample.host "/app") sample.ready "true" None None sample.disk
              (pre ++ [Close (Some 0%Z)]) = Ok run1
         /\ resolved run = Some r
         /\ resolved run1 = Some r
         /\ killed run = killed run1.
Proof.
  intros pre post. eexists.
  assert (Hsp : executeCommand_spawn (sample.host "/app") sample.ready "true" None None
                  sample.disk = Ok _) by reflexivity.
  split; [exact Hsp|]. split; [reflexivity|]. split; [reflexivity|].
  exact (executeCommand_settles_once (sample.host "/app") sample.ready "true" None None
           sample.disk _ pre post (Close (Some 0%Z)) Hsp eq_refl eq_refl).
Defined.

Lemma executeCommand_kills_once_witness :
  let events := [Close (Some 0%Z); TimerFired; TimerFired] in
  executeCommand (sample.host "/app") sample.ready "true" None None sample.disk events
  = Ok (run_child 1000 events)
  /\ killed (run_child 1000 events) = [].
Proof.
  intros events.
  assert (Hrun : executeCommand (sample.host "/app") sample.ready "true" None None
                   sample.disk events = Ok (run_child 1000 events)) by reflexivity.
  split; [exact Hrun|].
  exact (executeCommand_kills_once (sample.host "/app") sample.ready "true" None None
           sample.disk events _ Hrun).
Defined.

Lemma executeCommand_child_error_witness :
  exists sp,
    executeCommand_spawn (sample.host "/app") sample.ready "true" None None sample.disk = Ok sp
    /\ unsettled [] = true
    /\ exists run,
         executeCommand (sample.host "/app") sample.ready "true" None None sample.disk
           [ChildError "spawn podman ENOENT"; Close None] = Ok run
         /\ resolved run =
              Some {| success := false; stdout := ""; stderr := "spawn podman ENOENT";
                      exitCode := Some 1%Z |}.
Proof.
  eexists.
  assert (Hsp : executeCommand_spawn (sample.host "/app") sample.ready "true" None None
                  sample.disk = Ok _) by reflexivity.
  split; [exact Hsp|]. split; [reflexivity|].
  exact (executeCommand_child_error (sample.host "/app") sample.ready "true" None None
           sample.disk _ [] [Close None] "spawn podman ENOENT" Hsp eq_refl).
Defined.

Lemma executeCommand_timeout_in_force_witness :
  exists sp,
    executeCommand_spawn (sample.host "/app") sample.ready "true" None None sample.disk = Ok sp
    /\ spawn_timeoutMs sp <> 0%Z
    /\ spawn_timeoutMs sp = 1000%Z.
Proof.
  eexists.
  assert (Hsp : executeCommand_spawn (sample.host "/app") sample.ready "true" None None
                  sample.disk = Ok _) by reflexivity.
  split; [exact Hsp|].
  destruct (executeCommand_timeout_in_force (sample.host "/app") sample.ready "true" None None
              sample.disk _ Hsp) as (Hne & Hcfg & _).
  split; [exact Hne|]. apply Hcfg; [reflexivity | discriminate].
Defined.

Lemma env_args_no_option_witness :
  In "MODE=fast" (env_args [("--privileged", "1"); ("MODE", "fast")])
  /\ ("MODE=fast" = "--env"
      \/ exists k v, In (k, v) [("--privileged", "1"); ("MODE", "fast")]
                     /\ safe_env_name k = true
                     /\ "MODE=fast" = k +:+ "=" +:+ v
                     /\ startsWith "MODE=fast" "-" = false).
Proof.
  assert (Hin : In "MODE=fast" (env_args [("--privileged", "1"); ("MODE", "fast")]))
    by (right; left; reflexivity).
  split; [exact Hin|].
  exact (env_args_no_option _ _ Hin).
Defined.

Lemma listDirectory_entries_witness :
  exists entries,
    listDirectory (sample.host "/app") sample.ready "/home/u/ws" sample.disk = Ok entries
    /\ length entries = 3
    /\ exists v dirents,
         validatePath (sample.host "/app") sample.ready "/home/u/ws" sample.disk = Ok v
         /\ readdirSync v sample.disk = Some dirents
         /\ map entry_name entries = map dirent_name dirents.
Proof.
  eexists.
  assert (Hlist : listDirectory (sample.host "/app") sample.ready "/home/u/ws" sample.disk
                  = Ok _) by (vm_compute; reflexivity).
  split; [exact Hlist|]. split; [reflexivity|].
  destruct (listDirectory_entries (sample.host "/app") sample.ready _ sample.disk _ Hlist)
    as (v & dirents & Hv & Hread & Hall).
  exists v, dirents. split; [exact Hv|]. split; [exact Hread|].
  clear -Hall. induction Hall as [|d e ds es (Hn & _) _ IH]; [reflexivity|].
  cbn [map]. now rewrite Hn, IH.
Defined.

Lemma deleteFile_then_fileExists_witness :
  deleteFile (sample.host "/app") sample.ready "/home/u/ws/a.txt" sample.disk
  = (Ok tt, snd (deleteFile (sample.host "/app") sample.ready "/home/u/ws/a.txt" sample.disk))
  /\ fileExists (sample.host "/app") sample.ready "/home/u/ws/a.txt" sample.disk = Ok true
  /\ fileExists (sample.host "/app") sample.ready "/home/u/ws/a.txt"
       (snd (deleteFile (sample.host "/app") sample.ready "/home/u/ws/a.txt" sample.disk))
     = Ok false.
Proof.
  assert (Hfst : fst (deleteFile (sample.host "/app") sample.ready "/home/u/ws/a.txt"
                        sample.disk) = Ok tt) by (vm_compute; reflexivity).
  assert (Hdel : deleteFile (sample.host "/app") sample.ready "/home/u/ws/a.txt" sample.disk
                 = (Ok tt, snd (deleteFile (sample.host "/app") sample.ready
                                  "/home/u/ws/a.txt" sample.disk)))
    by (rewrite <- Hfst; apply surjective_pairing).
  split; [exact Hdel|]. split; [vm_compute; reflexivity|].
  exact (proj2 (deleteFile_then_fileExists (sample.host "/app") sample.ready _ sample.disk _
                  Hdel)).
Defined.

Lemma checkLinuxContainerStatus_available_witness :
  commandExists (rootful_podman_host "/app") "podman" = true
  /\ detectRuntime (rootful_podman_host "/app")
     = Some (podman, getBinaryVersion (rootful_podman_host "/app") "podman")
  /\ available (checkLinuxContainerStatus (rootful_podman_host "/app")) = false.
Proof.
  split; [reflexivity|]. split; [|reflexivity].
  exact (proj1 (checkLinuxContainerStatus_available (rootful_podman_host "/app")) eq_refl).
Defined.

Lemma initialize_succeeds_iff_witness :
  platform (sample.host "/app") = "linux"
  /\ existsSync (path.resolve (cwd (sample.host "/app"))
                   (cfg_workspacePath (sample.cfg "/home/u/ws"))) sample.disk = true
  /\ detectRuntime (sample.host "/app") = Some (podman, Some "podman version 4.9.3")
  /\ detectRootless (sample.host "/app") podman = true
  /\ ensureImage (sample.host "/app") podman (DEFAULT_CONTAINER_IMAGE (sample.host "/app"))
     = true
  /\ initialize (sample.host "/app") (shutdown sample.ready) (sample.cfg "/home/u/ws")
       sample.disk = (Ok tt, sample.ready).
Proof.
  assert (Hex : existsSync (path.resolve (cwd (sample.host "/app"))
                              (cfg_workspacePath (sample.cfg "/home/u/ws"))) sample.disk
                = true) by (vm_compute; reflexivity).
  split; [reflexivity|]. split; [exact Hex|]. do 3 (split; [reflexivity|]).
  apply (proj2 (initialize_succeeds_iff (sample.host "/app") (shutdown sample.ready)
                  sample.ready (sample.cfg "/home/u/ws") sample.disk)).
  split; [reflexivity|]. split; [exact Hex|].
  exists podman, (Some "podman version 4.9.3"). repeat split.
Defined.

Lemma initialize_first_failure_witness :
  platform (sample.bare_host "/app") = "linux"
  /\ existsSync (path.resolve (cwd (sample.bare_host "/app"))
                   (cfg_workspacePath (sample.cfg "/home/u/missing"))) sample.disk = false
  /\ detectRuntime (sample.bare_host "/app") = None
  /\ fst (initialize (sample.bare_host "/app") (new_bridge (sample.bare_host "/app"))
            (sample.cfg "/home/u/missing") sample.disk)
     = Err (WorkspaceMissing "/home/u/missing").
Proof.
  assert (Hex : existsSync (path.resolve (cwd (sample.bare_host "/app"))
                              (cfg_workspacePath (sample.cfg "/home/u/missing")))
                  sample.disk = false) by (vm_compute; reflexivity).
  split; [reflexivity|]. split; [exact Hex|]. split; [reflexivity|].
  destruct (initialize_first_failure (sample.bare_host "/app")
              (new_bridge (sample.bare_host "/app")) (sample.cfg "/home/u/missing")
              sample.disk) as (_ & Hmissing & _).
  exact (Hmissing eq_refl Hex).
Defined.
